(** * Offline-first task store: Record Service and Sync Orchestrator

    A shallow embedding of [services/taskService.ts] and
    [services/syncService.ts].  The two SQL tables are lists of rows (order
    is the storage order, duplicates are not excluded by the model), every
    [await]ed call is a step of a state-and-exception monad, and everything
    the program cannot control (wall clock, uuid generator, storage faults,
    the remote peer) is read from an environment of oracles indexed by the
    number of effects performed so far. *)

From Stdlib Require Import String Ascii List ZArith Bool Arith Lia.
From Stdlib Require Import Sorting.Sorted Sorting.Permutation.
Import ListNotations.

Local Open Scope string_scope.
Local Open Scope list_scope.
Local Open Scope nat_scope.

(* ===================================================================== *)
(** ** Data model ([types/index.ts] as used by the two services)          *)
(* ===================================================================== *)

(** A [Date] is kept as its time value, milliseconds since the epoch.  Every
    date the two services write comes from [new Date().toISOString()]; an
    invalid date is not represented. *)
Definition Instant := Z.

Inductive SyncStatus := pending | synced | error.

Inductive Operation := op_create | op_update | op_delete.

Definition SyncStatus_eqb (a b : SyncStatus) : bool :=
  match a, b with
  | pending, pending | synced, synced | error, error => true
  | _, _ => false
  end.

Definition Operation_to_string (o : Operation) : string :=
  match o with
  | op_create => "create"
  | op_update => "update"
  | op_delete => "delete"
  end.

(** Modelled from the spec: the type declarations ([types/index.ts]) are
    not among the sources; the records below have the fields of section 3
    and section 6 of the spec, under the names the two services read and
    write.

    [Task]: the object the services pass around, and also a row of the
    [tasks] table.  [None] is [undefined] in the object and [NULL] in the
    row. *)
Record Task := mkTask {
  t_id : string;
  t_title : string;
  t_description : string;
  t_completed : bool;
  t_created_at : Instant;
  t_updated_at : Instant;
  t_is_deleted : bool;
  t_sync_status : SyncStatus;
  t_server_id : option string;
  t_last_synced_at : option Instant
}.

(** [Partial<Task>]: every key may be absent.  The model covers objects
    whose present keys carry a value, which is what a JSON body without
    nulls gives. *)
Record PartialTask := mkPartial {
  p_id : option string;
  p_title : option string;
  p_description : option string;
  p_completed : option bool;
  p_created_at : option Instant;
  p_updated_at : option Instant;
  p_is_deleted : option bool;
  p_sync_status : option SyncStatus;
  p_server_id : option string;
  p_last_synced_at : option Instant
}.

Definition empty_partial : PartialTask :=
  mkPartial None None None None None None None None None None.

(** [a ?? b] and the pick of one key in an object spread. *)
Definition nullish {A} (a : option A) (b : A) : A :=
  match a with Some x => x | None => b end.

Definition or_key {A} (over base : option A) : option A :=
  match over with Some x => Some x | None => base end.

(** [a || b] on strings: the empty string is falsy. *)
Definition truthy_string (a : option string) : option string :=
  match a with
  | Some s => if String.eqb s "" then None else Some s
  | None => None
  end.

(** [{ ...existing, ...updates }] *)
Definition spread (existing : Task) (updates : PartialTask) : Task :=
  {| t_id := nullish (p_id updates) (t_id existing);
     t_title := nullish (p_title updates) (t_title existing);
     t_description := nullish (p_description updates) (t_description existing);
     t_completed := nullish (p_completed updates) (t_completed existing);
     t_created_at := nullish (p_created_at updates) (t_created_at existing);
     t_updated_at := nullish (p_updated_at updates) (t_updated_at existing);
     t_is_deleted := nullish (p_is_deleted updates) (t_is_deleted existing);
     t_sync_status := nullish (p_sync_status updates) (t_sync_status existing);
     t_server_id := or_key (p_server_id updates) (t_server_id existing);
     t_last_synced_at :=
       or_key (p_last_synced_at updates) (t_last_synced_at existing) |}.

(** [{ ...a, ...b }] on two partial objects. *)
Definition spread_partial (a b : PartialTask) : PartialTask :=
  {| p_id := or_key (p_id b) (p_id a);
     p_title := or_key (p_title b) (p_title a);
     p_description := or_key (p_description b) (p_description a);
     p_completed := or_key (p_completed b) (p_completed a);
     p_created_at := or_key (p_created_at b) (p_created_at a);
     p_updated_at := or_key (p_updated_at b) (p_updated_at a);
     p_is_deleted := or_key (p_is_deleted b) (p_is_deleted a);
     p_sync_status := or_key (p_sync_status b) (p_sync_status a);
     p_server_id := or_key (p_server_id b) (p_server_id a);
     p_last_synced_at := or_key (p_last_synced_at b) (p_last_synced_at a) |}.

(** [JSON.stringify(task)], read back as an object: keys whose value is
    [undefined] are dropped. *)
Definition snapshot (t : Task) : PartialTask :=
  {| p_id := Some (t_id t);
     p_title := Some (t_title t);
     p_description := Some (t_description t);
     p_completed := Some (t_completed t);
     p_created_at := Some (t_created_at t);
     p_updated_at := Some (t_updated_at t);
     p_is_deleted := Some (t_is_deleted t);
     p_sync_status := Some (t_sync_status t);
     p_server_id := t_server_id t;
     p_last_synced_at := t_last_synced_at t |}.

(** A row of [sync_queue], and the [SyncQueueItem] read back from it. *)
Record SyncQueueItem := mkItem {
  q_id : string;
  q_task_id : string;
  q_operation : Operation;
  q_data : PartialTask;
  q_created_at : Instant;
  q_retry_count : nat;
  q_error_message : option string
}.

Record SyncError := mkSyncError {
  e_task_id : string;
  e_operation : string;
  e_error : string;
  e_timestamp : Instant
}.

Record SyncResult := mkSyncResult {
  success : bool;
  synced_items : nat;
  failed_items : nat;
  errors : list SyncError
}.

Record BatchSyncRequest := mkRequest {
  items : list SyncQueueItem;
  client_timestamp : Instant
}.

(** One element of [processed_items].  [status] stays a string: the
    orchestrator compares it with ["success"] and ["conflict"] and sends
    everything else to its last branch. *)
Record ProcessedItem := mkProcessed {
  client_id : string;
  pi_server_id : option string;
  status : string;
  resolved_data : option PartialTask;
  pi_error : option string
}.

Record BatchSyncResponse := mkResponse {
  processed_items : list ProcessedItem
}.

(* ===================================================================== *)
(** ** The store                                                          *)
(* ===================================================================== *)

Record Db := mkDb {
  tasks : list Task;
  sync_queue : list SyncQueueItem
}.

Definition set_tasks (f : list Task -> list Task) (d : Db) : Db :=
  {| tasks := f (tasks d); sync_queue := sync_queue d |}.

Definition set_queue (f : list SyncQueueItem -> list SyncQueueItem)
  (d : Db) : Db :=
  {| tasks := tasks d; sync_queue := f (sync_queue d) |}.

(** *** The SQL statements of the two services, as functions on [Db] *)

(** [INSERT INTO tasks (id, title, description, completed, created_at,
    updated_at, is_deleted, sync_status, server_id) VALUES (...)];
    [last_synced_at] is not listed and stays [NULL]. *)
Definition sql_insert_task (row : Task) : Db -> Db :=
  set_tasks (fun ts => ts ++ [row]).

(** Modelled from the spec: the declaration of the [sync_queue] table
    ([db/database.ts]) is not among the sources.  [taskService.ts] inserts
    only [(id, task_id, operation, data)]; following section 3 of the spec,
    an entry carries a creation timestamp, a retry count starting at 0 and
    an optional last error message, so the three columns left out take the
    statement's current time, [0] and [NULL]. *)
Definition sql_insert_sync_queue (id task_id : string) (op : Operation)
  (data : PartialTask) (current_timestamp : Instant) : Db -> Db :=
  set_queue (fun q =>
    q ++ [{| q_id := id; q_task_id := task_id; q_operation := op;
             q_data := data; q_created_at := current_timestamp;
             q_retry_count := 0; q_error_message := None |}]).

(** [UPDATE tasks SET ... WHERE id = ?] *)
Definition sql_update_tasks_where_id (id : string) (set : Task -> Task)
  : Db -> Db :=
  set_tasks (map (fun r => if String.eqb (t_id r) id then set r else r)).

(** [SELECT * FROM tasks WHERE id = ? LIMIT 1] *)
Definition sql_select_task_where_id (id : string) (d : Db) : option Task :=
  find (fun r => String.eqb (t_id r) id) (tasks d).

(** [SELECT * FROM tasks WHERE is_deleted = 0] *)
Definition sql_select_tasks_not_deleted (d : Db) : list Task :=
  filter (fun r => negb (t_is_deleted r)) (tasks d).

(** [SELECT * FROM tasks WHERE sync_status IN ('pending','error')] *)
Definition sql_select_tasks_needing_sync (d : Db) : list Task :=
  filter (fun r => SyncStatus_eqb (t_sync_status r) pending
                   || SyncStatus_eqb (t_sync_status r) error) (tasks d).

(** [DELETE FROM sync_queue WHERE task_id = ?] *)
Definition sql_delete_sync_queue_where_task_id (task_id : string)
  : Db -> Db :=
  set_queue (filter (fun q => negb (String.eqb (q_task_id q) task_id))).

(** [UPDATE sync_queue SET retry_count = ?, error_message = ? WHERE id = ?] *)
Definition sql_update_sync_queue_where_id (id : string) (retry_count : nat)
  (error_message : string) : Db -> Db :=
  set_queue (map (fun q =>
    if String.eqb (q_id q) id
    then {| q_id := q_id q; q_task_id := q_task_id q;
            q_operation := q_operation q; q_data := q_data q;
            q_created_at := q_created_at q;
            q_retry_count := retry_count;
            q_error_message := Some error_message |}
    else q)).

(** [INSERT INTO sync_queue (id, task_id, operation, data, created_at,
    retry_count) VALUES (...)]: the statement of [addToSyncQueue], which
    gives the creation time and the retry count itself. *)
Definition sql_insert_sync_queue_item (item : SyncQueueItem) : Db -> Db :=
  set_queue (fun q =>
    q ++ [{| q_id := q_id item; q_task_id := q_task_id item;
             q_operation := q_operation item; q_data := q_data item;
             q_created_at := q_created_at item;
             q_retry_count := q_retry_count item;
             q_error_message := None |}]).

(** [SELECT COUNT( * ) as count FROM sync_queue] *)
Definition sql_count_sync_queue (d : Db) : nat := List.length (sync_queue d).

(** [MAX] over a nullable column: [NULL]s are skipped, and the result is
    [NULL] when nothing is left.  The column holds the text of
    [toISOString()], whose order as text is the order of the instants. *)
Definition sql_max (a b : option Instant) : option Instant :=
  match a, b with
  | Some x, Some y => Some (Z.max x y)
  | Some x, None => Some x
  | None, b => b
  end.

(** [SELECT MAX(last_synced_at) as last FROM tasks] *)
Definition sql_max_last_synced_at (d : Db) : option Instant :=
  fold_right sql_max None (map t_last_synced_at (tasks d)).

(** [ORDER BY created_at ASC]: an insertion sort on the creation time.  The
    theorems below use only that the result is a sorted rearrangement of the
    table. *)
Fixpoint insert_by_created_at (x : SyncQueueItem) (l : list SyncQueueItem)
  : list SyncQueueItem :=
  match l with
  | [] => [x]
  | y :: l' =>
      if (q_created_at x <=? q_created_at y)%Z
      then x :: y :: l'
      else y :: insert_by_created_at x l'
  end.

Fixpoint order_by_created_at (l : list SyncQueueItem) : list SyncQueueItem :=
  match l with
  | [] => []
  | x :: l' => insert_by_created_at x (order_by_created_at l')
  end.

(** [SELECT * FROM sync_queue ORDER BY created_at ASC] *)
Definition sql_select_sync_queue_ordered (d : Db) : list SyncQueueItem :=
  order_by_created_at (sync_queue d).

(* ===================================================================== *)
(** ** Effects                                                            *)
(* ===================================================================== *)

(** What one health probe meets. *)
Inductive Probe :=
| ProbeReply (http_status : nat) (latency_ms : nat)
| ProbeNoReply
| ProbeNetworkError (message : string).

(** What one [POST {base}/sync] meets: a 2xx body, a rejection of the
    [axios] promise (network error, non-2xx status), or nothing at all: the
    call sets no timeout, so a peer that keeps the connection open and never
    answers leaves the promise unsettled.  A 2xx body without a list of
    processed items makes the loop over it throw inside the same [try]
    block and is counted with the rejections. *)
Inductive PeerReply :=
| Reply (data : BatchSyncResponse)
| Fail (message : string)
| NoAnswer.

(** The environment: the [n]-th effect of a run reads the oracle at [n]. *)
Record Env := mkEnv {
  clock : nat -> Instant;
  uuid_gen : nat -> string;
  db_fault : nat -> option string;
  peer_sync : nat -> string -> BatchSyncRequest -> PeerReply;
  peer_health : nat -> string -> Probe
}.

(** One request sent to the peer together with what came back; the log of
    exchanges is history kept for the statements, the program never reads
    it. *)
Record Exchange := mkExchange {
  x_request : BatchSyncRequest;
  x_reply : PeerReply
}.

Record World := mkWorld {
  db : Db;
  tick : nat;
  net_log : list Exchange
}.

(** How a call ends: it returns, it throws, or it does not come back, which
    [OutOfFuel] stands for, be it a loop that never ends or an awaited
    promise that never settles. *)
Inductive Res (A : Type) :=
| Ok (a : A)
| Throw (message : string)
| OutOfFuel.
Arguments Ok {A} a.
Arguments Throw {A} message.
Arguments OutOfFuel {A}.

(** A computation over a state [S]; a thrown exception keeps the state
    reached so far, as a rejected promise keeps the writes already made. *)
Definition M (S A : Type) : Type := Env -> S -> Res A * S.

Definition ret {S A} (a : A) : M S A := fun _ s => (Ok a, s).

Definition bind {S A B} (m : M S A) (k : A -> M S B) : M S B :=
  fun E s =>
    match m E s with
    | (Ok a, s') => k a E s'
    | (Throw e, s') => (Throw e, s')
    | (OutOfFuel, s') => (OutOfFuel, s')
    end.

Definition throw {S A} (message : string) : M S A :=
  fun _ s => (Throw message, s).

Definition out_of_fuel {S A} : M S A := fun _ s => (OutOfFuel, s).

(** [try { body } catch (err) { handler(err.message) }] *)
Definition try_catch {S A} (body : M S A) (handler : string -> M S A)
  : M S A :=
  fun E s =>
    match body E s with
    | (Throw e, s') => handler e E s'
    | r => r
    end.

Declare Scope monad_scope.
Delimit Scope monad_scope with monad.
Notation "x <- m ;; k" := (bind m (fun x => k))
  (at level 61, m at next level, right associativity) : monad_scope.
Notation "m ;; k" := (bind m (fun _ => k))
  (at level 61, right associativity) : monad_scope.
Local Open Scope monad_scope.

(** [for (const x of xs) { await body(x) }] *)
Fixpoint for_each {S A} (xs : list A) (body : A -> M S unit) : M S unit :=
  match xs with
  | [] => ret tt
  | x :: xs' => body x ;; for_each xs' body
  end.

Definition advance (w : World) : World :=
  {| db := db w; tick := S (tick w); net_log := net_log w |}.

Definition with_db (d : Db) (w : World) : World :=
  {| db := d; tick := tick w; net_log := net_log w |}.

(** [new Date()] *)
Definition now : M World Instant :=
  fun E w => (Ok (clock E (tick w)), advance w).

(** [uuidv4()] *)
Definition uuidv4 : M World string :=
  fun E w => (Ok (uuid_gen E (tick w)), advance w).

(** Modelled from the spec: the [Database] wrapper ([db/database.ts]) is
    not among the sources; following section 6 of the spec, the store
    commits statement by statement.
    [await this.db.run(sql, params)]: one statement; when it is rejected
    the store is as before.  The statement may use the store's
    [CURRENT_TIMESTAMP]. *)
Definition db_run (stmt : Instant -> Db -> Db) : M World unit :=
  fun E w =>
    match db_fault E (tick w) with
    | Some e => (Throw e, advance w)
    | None => (Ok tt, advance (with_db (stmt (clock E (tick w)) (db w)) w))
    end.

(** Modelled from the spec: as for [db_run].
    [await this.db.get(sql, params)] and [await this.db.all(sql)] *)
Definition db_query {A} (q : Db -> A) : M World A :=
  fun E w =>
    match db_fault E (tick w) with
    | Some e => (Throw e, advance w)
    | None => (Ok (q (db w)), advance w)
    end.

(** [await axios.post(url, request)]: resolves with the body on a 2xx
    answer, rejects on a failure, and stays pending when the peer never
    answers. *)
Definition axios_post (url : string) (request : BatchSyncRequest)
  : M World BatchSyncResponse :=
  fun E w =>
    let reply := peer_sync E (tick w) url request in
    let w' := {| db := db w; tick := S (tick w);
                 net_log := net_log w ++ [mkExchange request reply] |} in
    match reply with
    | Reply data => (Ok data, w')
    | Fail e => (Throw e, w')
    | NoAnswer => (OutOfFuel, w')
    end.

(** [await axios.get(url, { timeout })]: resolves when a 2xx answer arrives
    before the timeout, rejects on every other behaviour of the peer. *)
Definition axios_get (url : string) (timeout : nat) : M World unit :=
  fun E w =>
    match peer_health E (tick w) url with
    | ProbeReply http_status latency_ms =>
        if (200 <=? http_status) && (http_status <? 300)
           && (latency_ms <? timeout)
        then (Ok tt, advance w)
        else (Throw "Request failed", advance w)
    | ProbeNoReply => (Throw "timeout exceeded", advance w)
    | ProbeNetworkError e => (Throw e, advance w)
    end.

(* ===================================================================== *)
(** ** Record Service ([services/taskService.ts])                         *)
(* ===================================================================== *)

Module TaskService.

(** [rowToTask] *)
Definition rowToTask (row : Task) : Task :=
  {| t_id := t_id row;
     t_title := t_title row;
     t_description := t_description row;
     t_completed := t_completed row;
     t_created_at := t_created_at row;
     t_updated_at := t_updated_at row;
     t_is_deleted := t_is_deleted row;
     t_sync_status := t_sync_status row;
     t_server_id := truthy_string (t_server_id row);
     t_last_synced_at := t_last_synced_at row |}.

Definition getTask (id : string) : M World (option Task) :=
  row <- db_query (sql_select_task_where_id id) ;;
  match row with
  | None => ret None
  | Some row =>
      if t_is_deleted row then ret None else ret (Some (rowToTask row))
  end.

Definition createTask (taskData : PartialTask) : M World Task :=
  id <- match truthy_string (p_id taskData) with
        | Some id => ret id
        | None => uuidv4
        end ;;
  created_at <- now ;;
  let updated_at := created_at in
  let task :=
    {| t_id := id;
       t_title := nullish (p_title taskData) "Untitled";
       t_description := nullish (p_description taskData) "";
       t_completed := nullish (p_completed taskData) false;
       t_created_at := created_at;
       t_updated_at := updated_at;
       t_is_deleted := false;
       t_sync_status := pending;
       t_server_id := p_server_id taskData;
       t_last_synced_at := None |} in
  db_run (fun _ => sql_insert_task task) ;;
  queueId <- uuidv4 ;;
  db_run (sql_insert_sync_queue queueId (t_id task) op_create
            (snapshot task)) ;;
  ret task.

(** The write of [updateTask]: six columns are set, from the merged
    object. *)
Definition set_updated (updated : Task) (updatedAt : Instant) (row : Task)
  : Task :=
  {| t_id := t_id row;
     t_title := t_title updated;
     t_description := t_description updated;
     t_completed := t_completed updated;
     t_created_at := t_created_at row;
     t_updated_at := updatedAt;
     t_is_deleted := t_is_deleted updated;
     t_sync_status := pending;
     t_server_id := t_server_id row;
     t_last_synced_at := t_last_synced_at row |}.

Definition updateTask (id : string) (updates : PartialTask)
  : M World (option Task) :=
  existing <- getTask id ;;
  match existing with
  | None => ret None
  | Some existing =>
      updatedAt <- now ;;
      let merged := spread existing updates in
      let updated :=
        {| t_id := t_id merged;
           t_title := t_title merged;
           t_description := t_description merged;
           t_completed := t_completed merged;
           t_created_at := t_created_at merged;
           t_updated_at := updatedAt;
           t_is_deleted := t_is_deleted merged;
           t_sync_status := pending;
           t_server_id := t_server_id merged;
           t_last_synced_at := t_last_synced_at merged |} in
      db_run (fun _ =>
        sql_update_tasks_where_id id (set_updated updated updatedAt)) ;;
      queueId <- uuidv4 ;;
      db_run (sql_insert_sync_queue queueId id op_update updates) ;;
      ret (Some updated)
  end.

(** The write of [deleteTask]. *)
Definition set_deleted (updatedAt : Instant) (row : Task) : Task :=
  {| t_id := t_id row;
     t_title := t_title row;
     t_description := t_description row;
     t_completed := t_completed row;
     t_created_at := t_created_at row;
     t_updated_at := updatedAt;
     t_is_deleted := true;
     t_sync_status := pending;
     t_server_id := t_server_id row;
     t_last_synced_at := t_last_synced_at row |}.

Definition deleteTask (id : string) : M World bool :=
  existing <- getTask id ;;
  match existing with
  | None => ret false
  | Some _ =>
      updatedAt <- now ;;
      db_run (fun _ => sql_update_tasks_where_id id (set_deleted updatedAt)) ;;
      queueId <- uuidv4 ;;
      db_run (sql_insert_sync_queue queueId id op_delete empty_partial) ;;
      ret true
  end.

Definition getAllTasks : M World (list Task) :=
  rows <- db_query sql_select_tasks_not_deleted ;;
  ret (map rowToTask rows).

Definition getTasksNeedingSync : M World (list Task) :=
  rows <- db_query sql_select_tasks_needing_sync ;;
  ret (map rowToTask rows).

End TaskService.

(* ===================================================================== *)
(** ** Sync Orchestrator ([services/syncService.ts])                      *)
(* ===================================================================== *)

Module SyncService.

(** The fields of a [SyncService] instance that the methods read. *)
Record SyncService := mkSyncService {
  apiUrl : string;
  batchSize : nat;
  maxRetries : nat
}.

(** The three variables the constructor reads from [process.env]; the two
    numeric ones are given already parsed ([parseInt(..., 10)]). *)
Record ProcessEnv := mkProcessEnv {
  API_BASE_URL : option string;
  SYNC_BATCH_SIZE : option nat;
  SYNC_MAX_RETRIES : option nat
}.

Definition constructor (env : ProcessEnv) : SyncService :=
  {| apiUrl := nullish (truthy_string (API_BASE_URL env))
                 "http://localhost:3000/api";
     batchSize := nullish (SYNC_BATCH_SIZE env) 10;
     maxRetries := nullish (SYNC_MAX_RETRIES env) 3 |}.

(** The state of one call of [sync()]: the world and the three local
    variables of the call. *)
Record Run := mkRun {
  world : World;
  successCount : nat;
  failCount : nat;
  run_errors : list SyncError
}.

Definition in_world {A} (m : M World A) : M Run A :=
  fun E r =>
    let '(res, w') := m E (world r) in
    (res, {| world := w'; successCount := successCount r;
             failCount := failCount r; run_errors := run_errors r |}).

(** [successCount++] *)
Definition incr_successCount : M Run unit :=
  fun _ r =>
    (Ok tt, {| world := world r; successCount := S (successCount r);
               failCount := failCount r; run_errors := run_errors r |}).

(** [failCount++] *)
Definition incr_failCount : M Run unit :=
  fun _ r =>
    (Ok tt, {| world := world r; successCount := successCount r;
               failCount := S (failCount r); run_errors := run_errors r |}).

(** [errors.push(e)] *)
Definition errors_push (e : SyncError) : M Run unit :=
  fun _ r =>
    (Ok tt, {| world := world r; successCount := successCount r;
               failCount := failCount r;
               run_errors := run_errors r ++ [e] |}).

Definition get_run : M Run Run := fun _ r => (Ok r, r).

(** Runs a body that owns fresh local variables. *)
Definition with_locals {A} (body : M Run A) : M World A :=
  fun E w =>
    let '(res, r) := body E (mkRun w 0 0 []) in (res, world r).

(** [COALESCE(?, server_id)] *)
Definition COALESCE {A} (a b : option A) : option A :=
  match a with Some x => Some x | None => b end.

(** The write of [updateSyncStatus]. *)
Definition set_sync_status (st : SyncStatus) (server_id : option string)
  (lastSyncedAt : Instant) (row : Task) : Task :=
  {| t_id := t_id row;
     t_title := t_title row;
     t_description := t_description row;
     t_completed := t_completed row;
     t_created_at := t_created_at row;
     t_updated_at := t_updated_at row;
     t_is_deleted := t_is_deleted row;
     t_sync_status := st;
     t_server_id := COALESCE server_id (t_server_id row);
     t_last_synced_at := Some lastSyncedAt |}.

Definition updateSyncStatus (taskId : string) (st : SyncStatus)
  (serverData : option PartialTask) : M World unit :=
  lastSyncedAt <- now ;;
  db_run (fun _ =>
    sql_update_tasks_where_id taskId
      (set_sync_status st
         (truthy_string
            (match serverData with
             | Some d => p_server_id d
             | None => None
             end))
         lastSyncedAt)) ;;
  if SyncStatus_eqb st synced
  then db_run (fun _ => sql_delete_sync_queue_where_task_id taskId)
  else ret tt.

(** [UPDATE tasks SET sync_status = 'error' WHERE id = ?] *)
Definition set_error (row : Task) : Task :=
  {| t_id := t_id row;
     t_title := t_title row;
     t_description := t_description row;
     t_completed := t_completed row;
     t_created_at := t_created_at row;
     t_updated_at := t_updated_at row;
     t_is_deleted := t_is_deleted row;
     t_sync_status := error;
     t_server_id := t_server_id row;
     t_last_synced_at := t_last_synced_at row |}.

Definition handleSyncError (this : SyncService) (item : SyncQueueItem)
  (err_message : string) : M World unit :=
  let newRetryCount := q_retry_count item + 1 in
  if maxRetries this <? newRetryCount
  then
    db_run (fun _ => sql_update_tasks_where_id (q_task_id item) set_error) ;;
    db_run (fun _ =>
      sql_update_sync_queue_where_id (q_id item) newRetryCount err_message)
  else
    db_run (fun _ =>
      sql_update_sync_queue_where_id (q_id item) newRetryCount err_message).

Definition processBatch (this : SyncService) (batch : list SyncQueueItem)
  : M World BatchSyncResponse :=
  ts <- now ;;
  let request :=
    {| items := map (fun i => i) batch; client_timestamp := ts |} in
  axios_post (apiUrl this ++ "/sync") request.

(** [{ server_id: item.server_id, ...item.resolved_data }] *)
Definition serverData_of (item : ProcessedItem) : PartialTask :=
  spread_partial
    {| p_id := None; p_title := None; p_description := None;
       p_completed := None; p_created_at := None; p_updated_at := None;
       p_is_deleted := None; p_sync_status := None;
       p_server_id := pi_server_id item; p_last_synced_at := None |}
    (match resolved_data item with
     | Some d => d
     | None => empty_partial
     end).

Definition is_some {A} (o : option A) : bool :=
  match o with Some _ => true | None => false end.

(** The body of [for (const item of response.processed_items)]. *)
Definition on_processed_item (item : ProcessedItem) : M Run unit :=
  if String.eqb (status item) "success" then
    incr_successCount ;;
    in_world (updateSyncStatus (client_id item) synced
                (Some (serverData_of item)))
  else if String.eqb (status item) "conflict" && is_some (resolved_data item)
  then
    incr_successCount ;;
    in_world (updateSyncStatus (client_id item) synced
                (Some (serverData_of item)))
  else
    incr_failCount ;;
    ts <- in_world now ;;
    errors_push
      {| e_task_id := client_id item;
         e_operation := "sync";
         e_error := nullish (truthy_string (pi_error item))
                      "Unknown sync error";
         e_timestamp := ts |} ;;
    in_world (updateSyncStatus (client_id item) error None).

(** The body of [for (const item of batch)] in the [catch] block. *)
Definition on_failed_item (this : SyncService) (err_message : string)
  (item : SyncQueueItem) : M Run unit :=
  incr_failCount ;;
  ts <- in_world now ;;
  errors_push
    {| e_task_id := q_task_id item;
       e_operation := Operation_to_string (q_operation item);
       e_error := err_message;
       e_timestamp := ts |} ;;
  in_world (handleSyncError this item err_message).

(** [queueItems.slice(i, j)] for [0 <= i <= j]. *)
Definition slice {A} (i j : nat) (l : list A) : list A :=
  firstn (j - i) (skipn i l).

(** One turn of the [for (let i = 0; ...; i += this.batchSize)] loop. *)
Definition sync_batch (this : SyncService) (batch : list SyncQueueItem)
  : M Run unit :=
  try_catch
    (response <- in_world (processBatch this batch) ;;
     for_each (processed_items response) on_processed_item)
    (fun err_message => for_each batch (on_failed_item this err_message)).

(** The loop itself.  A batch size of 0 never advances [i]; the fuel, which
    [sync_drain] sets to the number of entries, runs out in that case and
    only then. *)
Fixpoint sync_loop (fuel : nat) (this : SyncService)
  (queueItems : list SyncQueueItem) (i : nat) : M Run unit :=
  if i <? length queueItems then
    match fuel with
    | 0 => out_of_fuel
    | S fuel' =>
        sync_batch this (slice i (i + batchSize this) queueItems) ;;
        sync_loop fuel' this queueItems (i + batchSize this)
    end
  else ret tt.

(** [sync()] after its first [await]: the local variables, the loop and the
    returned aggregate. *)
Definition sync_drain (this : SyncService) (queueItems : list SyncQueueItem)
  : M World SyncResult :=
  with_locals
    (sync_loop (length queueItems) this queueItems 0 ;;
     r <- get_run ;;
     ret {| success := failCount r =? 0;
            synced_items := successCount r;
            failed_items := failCount r;
            errors := run_errors r |}).

Definition sync (this : SyncService) : M World SyncResult :=
  queueItems <- db_query sql_select_sync_queue_ordered ;;
  sync_drain this queueItems.


(** [resolveConflict]: last write wins, on the time values. *)
Definition resolveConflict (localTask serverTask : Task) : Task :=
  let localTime := t_updated_at localTask in
  let serverTime := t_updated_at serverTask in
  if (localTime >=? serverTime)%Z then localTask else serverTask.

Definition checkConnectivity (this : SyncService) : M World bool :=
  try_catch
    (axios_get (apiUrl this ++ "/health") 5000 ;; ret true)
    (fun _ => ret false).

(** [addToSyncQueue] *)
Definition addToSyncQueue (taskId : string) (operation : Operation)
  (data : PartialTask) : M World unit :=
  id <- uuidv4 ;;
  created_at <- now ;;
  let item :=
    {| q_id := id; q_task_id := taskId; q_operation := operation;
       q_data := data; q_created_at := created_at; q_retry_count := 0;
       q_error_message := None |} in
  db_run (fun _ => sql_insert_sync_queue_item item).

End SyncService.

(* ===================================================================== *)
(** ** Sync routes ([routes/sync.ts])                                     *)
(* ===================================================================== *)

Module SyncRoutes.

Import SyncService.

(** What a handler passes to [res.json]. *)
Inductive ResponseBody :=
| body_result (result : SyncResult)
| body_error (error : string)
| body_status (pending : nat) (last_synced_at : option Instant)
    (online : bool)
| body_health (status : string) (timestamp : Instant).

(** [res.status(code).json(body)]; [res.json(body)] answers 200. *)
Record HttpResponse := mkHttp {
  http_code : nat;
  http_body : ResponseBody
}.

(** [router.post('/sync', ...)] *)
Definition post_sync (syncService : SyncService) : M World HttpResponse :=
  try_catch
    (online <- checkConnectivity syncService ;;
     if negb online
     then ret (mkHttp 503 (body_error "Server not reachable"))
     else
       result <- sync syncService ;;
       ret (mkHttp 200 (body_result result)))
    (fun _ => ret (mkHttp 500 (body_error "Failed to perform sync"))).

(** [router.get('/status', ...)] *)
Definition get_status (syncService : SyncService) : M World HttpResponse :=
  try_catch
    (pending <- db_query sql_count_sync_queue ;;
     lastSynced <- db_query sql_max_last_synced_at ;;
     online <- checkConnectivity syncService ;;
     ret (mkHttp 200 (body_status pending lastSynced online)))
    (fun _ => ret (mkHttp 500 (body_error "Failed to fetch sync status"))).

(** [router.post('/batch', ...)] *)
Definition post_batch : M World HttpResponse :=
  ret (mkHttp 501 (body_error "Batch sync not implemented on client API")).

(** [router.get('/health', ...)] *)
Definition get_health : M World HttpResponse :=
  timestamp <- now ;;
  ret (mkHttp 200 (body_health "ok" timestamp)).

End SyncRoutes.

(* ===================================================================== *)
(** ** Vocabulary of the statements                                       *)
(* ===================================================================== *)

Import TaskService SyncService.

(** No storage statement is rejected. *)
Definition no_db_faults (E : Env) : Prop := forall n, db_fault E n = None.

(** Every [POST] to the peer settles, with an answer or with a failure. *)
Definition peer_answers (E : Env) : Prop :=
  forall n url req, peer_sync E n url req <> NoAnswer.

(** The row [getTask] answers with, if any. *)
Definition live_task (id : string) (d : Db) : option Task :=
  match sql_select_task_where_id id d with
  | None => None
  | Some row => if t_is_deleted row then None else Some (rowToTask row)
  end.

(** Ascending creation time. *)
Definition created_le (a b : SyncQueueItem) : Prop :=
  (q_created_at a <= q_created_at b)%Z.

Definition created_lt (a b : SyncQueueItem) : Prop :=
  (q_created_at a < q_created_at b)%Z.

(** The entries of one record. *)
Definition entries_of (record_id : string) (l : list SyncQueueItem)
  : list SyncQueueItem :=
  filter (fun q => String.eqb (q_task_id q) record_id) l.

(** The outcomes that confirm an entry: [success], or [conflict] with
    resolved data. *)
Definition item_confirmed (item : ProcessedItem) : bool :=
  String.eqb (status item) "success"
  || (String.eqb (status item) "conflict" && is_some (resolved_data item)).

(** The entries sent to the peer in a list of exchanges, in order. *)
Definition drained (xs : list Exchange) : list SyncQueueItem :=
  concat (map (fun x => items (x_request x)) xs).

(** What one exchange contributes to the aggregate, read off the exchange
    alone: every entry of a batch whose send failed is a failure; in an
    answered batch the items are counted by their outcome. *)
Definition exchange_synced (x : Exchange) : nat :=
  match x_reply x with
  | Reply data => List.length (filter item_confirmed (processed_items data))
  | Fail _ => 0
  | NoAnswer => 0
  end.

Definition exchange_failed (x : Exchange) : nat :=
  match x_reply x with
  | Reply data =>
      List.length
        (filter (fun i => negb (item_confirmed i)) (processed_items data))
  | Fail _ => List.length (items (x_request x))
  | NoAnswer => 0
  end.

(** The error details (record id, operation, message) one exchange owes. *)
Definition exchange_error_details (x : Exchange)
  : list (string * string * string) :=
  match x_reply x with
  | Reply data =>
      map (fun i => (client_id i, "sync",
                     nullish (truthy_string (pi_error i))
                       "Unknown sync error"))
          (filter (fun i => negb (item_confirmed i)) (processed_items data))
  | Fail message =>
      map (fun q => (q_task_id q, Operation_to_string (q_operation q),
                     message))
          (items (x_request x))
  | NoAnswer => []
  end.

Definition error_detail (e : SyncError) : string * string * string :=
  (e_task_id e, e_operation e, e_error e).

(** An entry after one more failed send. *)
Definition record_failure (message : string) (q : SyncQueueItem)
  : SyncQueueItem :=
  {| q_id := q_id q; q_task_id := q_task_id q;
     q_operation := q_operation q; q_data := q_data q;
     q_created_at := q_created_at q;
     q_retry_count := q_retry_count q + 1;
     q_error_message := Some message |}.

(** A stored entry after the failed send of a batch: when the batch holds
    an entry with its id, it takes that entry's retry count plus one and
    the message (the last such entry decides, should the batch hold
    several); otherwise it is as it was. *)
Definition after_failed_batch (message : string)
  (batch : list SyncQueueItem) (q : SyncQueueItem) : SyncQueueItem :=
  match find (fun i => String.eqb (q_id i) (q_id q)) (rev batch) with
  | Some i =>
      {| q_id := q_id q; q_task_id := q_task_id q;
         q_operation := q_operation q; q_data := q_data q;
         q_created_at := q_created_at q;
         q_retry_count := q_retry_count i + 1;
         q_error_message := Some message |}
  | None => q
  end.

(** Does the batch hold an entry with this id; does it hold an entry of
    this record whose new retry count passes the maximum. *)
Definition in_batch (batch : list SyncQueueItem) (q : SyncQueueItem) : bool :=
  existsb (fun i => String.eqb (q_id i) (q_id q)) batch.

Definition exhausted_in (this : SyncService) (batch : list SyncQueueItem)
  (row : Task) : bool :=
  existsb (fun i => String.eqb (t_id row) (q_task_id i)
                    && (maxRetries this <? q_retry_count i + 1)) batch.

(** The store after [handleSyncError] has run for one entry with every
    statement accepted. *)
Definition store_after_failure (this : SyncService) (message : string)
  (d : Db) (item : SyncQueueItem) : Db :=
  sql_update_sync_queue_where_id (q_id item) (q_retry_count item + 1) message
    (if maxRetries this <? q_retry_count item + 1
     then sql_update_tasks_where_id (q_task_id item) set_error d
     else d).

(** The tally of a run, as an invariant of the loop. *)
Definition tallied (E : Env) (log0 : list Exchange)
  (queueItems : list SyncQueueItem) (i : nat) (r : Run) : Prop :=
  exists xs,
    net_log (world r) = log0 ++ xs
    /\ drained xs = firstn i queueItems
    /\ successCount r = list_sum (map exchange_synced xs)
    /\ failCount r = list_sum (map exchange_failed xs)
    /\ map error_detail (run_errors r) = flat_map exchange_error_details xs.

(** An entry whose retry count has just passed the maximum. *)
Definition exhausted_entry (this : SyncService) (message : string)
  (q : SyncQueueItem) : SyncQueueItem :=
  {| q_id := q_id q; q_task_id := q_task_id q;
     q_operation := q_operation q; q_data := q_data q;
     q_created_at := q_created_at q;
     q_retry_count := maxRetries this + 1;
     q_error_message := Some message |}.

(** The store as a run of failed sends leaves it after the first [i]
    entries. *)
Definition failures_stored (this : SyncService) (message : string)
  (d0 : Db) (queueItems : list SyncQueueItem) (i : nat) (r : Run) : Prop :=
  db (world r)
  = fold_left (store_after_failure this message) (firstn i queueItems) d0.

(** A sequence of calls of the Record Service. *)
Inductive Mutation :=
| Create (taskData : PartialTask)
| Update (id : string) (updates : PartialTask)
| Delete (id : string).

Definition apply_mutation (m : Mutation) : M World unit :=
  match m with
  | Create taskData => createTask taskData ;; ret tt
  | Update id updates => updateTask id updates ;; ret tt
  | Delete id => deleteTask id ;; ret tt
  end.

Definition apply_mutations (ms : list Mutation) : M World unit :=
  for_each ms apply_mutation.

(** [n] calls of [sync()], one after the other. *)
Fixpoint sync_times (n : nat) (this : SyncService) : M World unit :=
  match n with
  | 0 => ret tt
  | S n' => sync this ;; sync_times n' this
  end.

(** Two overlapping calls of [sync()], as in [sync_overlapping], with a call
    of the Record Service after the first call has returned and before the
    second call goes on with the entries it has read. *)
Definition sync_overlapping_around (this : SyncService) (m : Mutation)
  : M World (SyncResult * SyncResult) :=
  itemsA <- db_query sql_select_sync_queue_ordered ;;
  itemsB <- db_query sql_select_sync_queue_ordered ;;
  resultA <- sync_drain this itemsA ;;
  apply_mutation m ;;
  resultB <- sync_drain this itemsB ;;
  ret (resultA, resultB).

(** *** Frames and invariants *)

(** A computation keeps a relation between the store before and the store
    after, on every outcome and in every environment; a computation ends
    when, the peer settling every [POST], it returns or throws. *)
Definition keeps {S A} (store : S -> Db) (R : Db -> Db -> Prop) (m : M S A)
  : Prop :=
  forall E s, R (store s) (store (snd (m E s))).

Definition ends {S A} (m : M S A) : Prop :=
  forall E s, peer_answers E -> fst (m E s) <> OutOfFuel.

(** What the orchestrator may change in a record: the sync status, the
    server id (never back to none) and [last_synced_at]. *)
Definition same_record (a b : Task) : Prop :=
  t_id b = t_id a
  /\ t_title b = t_title a
  /\ t_description b = t_description a
  /\ t_completed b = t_completed a
  /\ t_created_at b = t_created_at a
  /\ t_updated_at b = t_updated_at a
  /\ t_is_deleted b = t_is_deleted a
  /\ (t_server_id a <> None -> t_server_id b <> None).

(** What the orchestrator may change in an entry: the retry count and the
    error message. *)
Definition same_entry (a b : SyncQueueItem) : Prop :=
  q_id b = q_id a
  /\ q_task_id b = q_task_id a
  /\ q_operation b = q_operation a
  /\ q_data b = q_data a
  /\ q_created_at b = q_created_at a.

(** The store inside the state of a run. *)
Definition run_store (r : Run) : Db := db (world r).

(** [l'] holds, in order, the images of some of the elements of [l]. *)
Inductive survivors {A} (R : A -> A -> Prop) : list A -> list A -> Prop :=
| survivors_nil : survivors R [] []
| survivors_keep : forall x x' l l',
    R x x' -> survivors R l l' -> survivors R (x :: l) (x' :: l')
| survivors_drop : forall x l l',
    survivors R l l' -> survivors R (x :: l) l'.

Definition sync_frame (d0 d1 : Db) : Prop :=
  Forall2 same_record (tasks d0) (tasks d1)
  /\ survivors same_entry (sync_queue d0) (sync_queue d1).

(** What the Record Service leaves alone in a record. *)
Definition same_sync_columns (a b : Task) : Prop :=
  t_id b = t_id a
  /\ t_created_at b = t_created_at a
  /\ t_server_id b = t_server_id a
  /\ t_last_synced_at b = t_last_synced_at a.

(** The rows that were there are still there, in place, and the log has
    only grown at its end. *)
Definition record_service_frame (d0 d1 : Db) : Prop :=
  (exists kept added,
      tasks d1 = kept ++ added /\ Forall2 same_sync_columns (tasks d0) kept)
  /\ (exists appended, sync_queue d1 = sync_queue d0 ++ appended).

(** No record marked [synced] has an entry in the log. *)
Definition synced_clear (d : Db) : Prop :=
  forall row q,
    In row (tasks d) -> In q (sync_queue d) ->
    t_sync_status row = synced -> q_task_id q <> t_id row.

(** The store after a confirming outcome, and after any other outcome, with
    every statement accepted. *)
Definition store_after_confirmation (taskId : string)
  (server_id : option string) (lastSyncedAt : Instant) (d : Db) : Db :=
  sql_delete_sync_queue_where_task_id taskId
    (sql_update_tasks_where_id taskId
       (set_sync_status synced server_id lastSyncedAt) d).

Definition store_after_rejection (taskId : string) (lastSyncedAt : Instant)
  (d : Db) : Db :=
  sql_update_tasks_where_id taskId
    (set_sync_status error None lastSyncedAt) d.

(** A peer that confirms, entry by entry, everything it is sent. *)
Definition confirms_batch (reply : PeerReply) (batch : list SyncQueueItem)
  : Prop :=
  exists data,
    reply = Reply data
    /\ map client_id (processed_items data) = map q_task_id batch
    /\ forallb item_confirmed (processed_items data) = true.

(** Is the record id among these ids. *)
Definition mentions (ids : list string) (id : string) : bool :=
  existsb (String.eqb id) ids.

(** A record after the confirmation of the records [ids]: synced if it is
    one of them, untouched otherwise. *)
Definition confirmed_by (ids : list string) (a b : Task) : Prop :=
  t_id b = t_id a
  /\ if mentions ids (t_id a) then t_sync_status b = synced else b = a.

(** The state of a run in which every send so far was confirmed entry by
    entry, after the first [i] entries. *)
Definition confirmations_stored (d0 : Db) (queueItems : list SyncQueueItem)
  (i : nat) (r : Run) : Prop :=
  successCount r = List.length (firstn i queueItems)
  /\ failCount r = 0
  /\ run_errors r = []
  /\ sync_queue (db (world r))
     = filter (fun q => negb (mentions (map q_task_id (firstn i queueItems))
                                (q_task_id q)))
              (sync_queue d0)
  /\ Forall2 (confirmed_by (map q_task_id (firstn i queueItems)))
       (tasks d0) (tasks (db (world r))).

(** The tally of a run in which every send so far has failed with the same
    message, after the first [i] entries. *)
Definition failures_counted (message : string)
  (queueItems : list SyncQueueItem) (i : nat) (r : Run) : Prop :=
  successCount r = 0
  /\ failCount r = List.length (firstn i queueItems)
  /\ map error_detail (run_errors r)
     = map (fun q => (q_task_id q, Operation_to_string (q_operation q),
                      message))
           (firstn i queueItems).

(** *** Scenarios *)

Definition letter (n : nat) : string := String (ascii_of_nat (97 + n)) "".

(** A peer that confirms every entry it is sent. *)
Definition confirm_all (req : BatchSyncRequest) : PeerReply :=
  Reply {| processed_items :=
             map (fun q => {| client_id := q_task_id q;
                              pi_server_id := Some "srv-1";
                              status := "success";
                              resolved_data := None;
                              pi_error := None |}) (items req) |}.

(** A peer that answers every entry with an explicit error. *)
Definition reject_all (req : BatchSyncRequest) : PeerReply :=
  Reply {| processed_items :=
             map (fun q => {| client_id := q_task_id q;
                              pi_server_id := None;
                              status := "error";
                              resolved_data := None;
                              pi_error := Some "rejected" |}) (items req) |}.

Definition E_ok : Env :=
  {| clock := fun n => Z.of_nat n;
     uuid_gen := fun n => ("uuid-" ++ letter n)%string;
     db_fault := fun _ => None;
     peer_sync := fun _ _ req => confirm_all req;
     peer_health := fun _ _ => ProbeReply 200 12 |}.

Definition E_rejecting : Env :=
  {| clock := fun n => Z.of_nat n;
     uuid_gen := fun n => ("uuid-" ++ letter n)%string;
     db_fault := fun _ => None;
     peer_sync := fun _ _ req => reject_all req;
     peer_health := fun _ _ => ProbeReply 200 12 |}.

Definition E_peer_down : Env :=
  {| clock := fun n => Z.of_nat n;
     uuid_gen := fun n => ("uuid-" ++ letter n)%string;
     db_fault := fun _ => None;
     peer_sync := fun _ _ _ => Fail "Network Error";
     peer_health := fun _ _ => ProbeNoReply |}.

(** A clock that stands still: every reading is the same instant. *)
Definition E_frozen_clock : Env :=
  {| clock := fun _ => 0%Z;
     uuid_gen := fun n => ("uuid-" ++ letter n)%string;
     db_fault := fun _ => None;
     peer_sync := fun _ _ req => confirm_all req;
     peer_health := fun _ _ => ProbeReply 200 12 |}.

(** A peer that confirms the first batch of a run and is gone for the
    following ones. *)
Definition E_confirm_then_fail : Env :=
  {| clock := fun n => Z.of_nat n;
     uuid_gen := fun n => ("uuid-" ++ letter n)%string;
     db_fault := fun _ => None;
     peer_sync := fun n _ req =>
       if n <=? 2 then confirm_all req else Fail "Network Error";
     peer_health := fun _ _ => ProbeReply 200 12 |}.

(** The fifth effect, which in [createTask] is the append to the log, is
    rejected by the store. *)
Definition E_log_append_fails : Env :=
  {| clock := fun n => Z.of_nat n;
     uuid_gen := fun n => ("uuid-" ++ letter n)%string;
     db_fault := fun n => if n =? 4 then Some "SQLITE_FULL" else None;
     peer_sync := fun _ _ req => confirm_all req;
     peer_health := fun _ _ => ProbeReply 200 12 |}.

Definition w_empty : World :=
  {| db := {| tasks := []; sync_queue := [] |}; tick := 0; net_log := [] |}.

Definition task_t1 : Task :=
  {| t_id := "t1"; t_title := "Buy milk"; t_description := "";
     t_completed := false; t_created_at := 1%Z; t_updated_at := 2%Z;
     t_is_deleted := false; t_sync_status := pending;
     t_server_id := None; t_last_synced_at := None |}.

Definition entry_create_t1 : SyncQueueItem :=
  {| q_id := "q1"; q_task_id := "t1"; q_operation := op_create;
     q_data := snapshot task_t1; q_created_at := 1%Z;
     q_retry_count := 0; q_error_message := None |}.

Definition entry_update_t1 : SyncQueueItem :=
  {| q_id := "q2"; q_task_id := "t1"; q_operation := op_update;
     q_data := {| p_id := None; p_title := Some "Buy oat milk";
                  p_description := None; p_completed := None;
                  p_created_at := None; p_updated_at := None;
                  p_is_deleted := None; p_sync_status := None;
                  p_server_id := None; p_last_synced_at := None |};
     q_created_at := 2%Z; q_retry_count := 0; q_error_message := None |}.

(** One pending record with a [create] and a later [update] in the log. *)
Definition w_t1 : World :=
  {| db := {| tasks := [task_t1];
              sync_queue := [entry_create_t1; entry_update_t1] |};
     tick := 0; net_log := [] |}.

(** One pending record with a single [create] in the log. *)
Definition w_t1_created : World :=
  {| db := {| tasks := [task_t1]; sync_queue := [entry_create_t1] |};
     tick := 0; net_log := [] |}.

Definition confirmed_t1 : ProcessedItem :=
  {| client_id := "t1"; pi_server_id := Some "srv-1"; status := "success";
     resolved_data := None; pi_error := None |}.

Definition rejected_t1 : ProcessedItem :=
  {| client_id := "t1"; pi_server_id := None; status := "error";
     resolved_data := None; pi_error := Some "rejected" |}.

Definition named_t1 : PartialTask :=
  {| p_id := Some "t1"; p_title := Some "Buy milk"; p_description := None;
     p_completed := None; p_created_at := None; p_updated_at := None;
     p_is_deleted := None; p_sync_status := None;
     p_server_id := None; p_last_synced_at := None |}.

Definition mark_deleted : PartialTask :=
  {| p_id := None; p_title := None; p_description := None;
     p_completed := None; p_created_at := None; p_updated_at := None;
     p_is_deleted := Some true; p_sync_status := None;
     p_server_id := None; p_last_synced_at := None |}.

Definition default_service : SyncService :=
  constructor {| API_BASE_URL := None; SYNC_BATCH_SIZE := None;
                 SYNC_MAX_RETRIES := None |}.

(** A service that sends one entry per batch. *)
Definition service_batch_1 : SyncService :=
  constructor {| API_BASE_URL := None; SYNC_BATCH_SIZE := Some 1;
                 SYNC_MAX_RETRIES := None |}.

(* ===================================================================== *)
(** ** Properties                                                         *)
(* ===================================================================== *)

(** *** Conflict resolution *)

(** C7. The last-write-wins resolver is a total function of the two
    [updated_at] instants: for every pair of records it returns the local
    record when the local instant is not before the server's (a tie keeps
    the local record) and the server record otherwise. *)
Theorem resolveConflict_last_write_wins :
  forall localTask serverTask : Task,
    ((t_updated_at serverTask <= t_updated_at localTask)%Z
     /\ resolveConflict localTask serverTask = localTask)
    \/ ((t_updated_at localTask < t_updated_at serverTask)%Z
        /\ resolveConflict localTask serverTask = serverTask).
Proof.
  intros l s. unfold resolveConflict.
  destruct (Z.geb_spec (t_updated_at l) (t_updated_at s)) as [Hge | Hlt].
  - left. split; [lia | reflexivity].
  - right. split; [lia | reflexivity].
Qed.

Lemma resolveConflict_tie :
  forall localTask serverTask : Task,
    t_updated_at localTask = t_updated_at serverTask ->
    resolveConflict localTask serverTask = localTask.
Proof.
  intros l s Heq. unfold resolveConflict. rewrite Heq.
  destruct (Z.geb_spec (t_updated_at s) (t_updated_at s)); [reflexivity | lia].
Qed.

(** *** Connectivity gate *)

(** C8. [checkConnectivity] never throws: whatever the peer does, it
    returns a boolean, which is [true] exactly when the health probe got a
    2xx answer before the 5000 ms timeout, and it leaves the store alone. *)
Theorem checkConnectivity_never_throws :
  forall (this : SyncService) (E : Env) (w : World),
    exists b : bool,
      fst (checkConnectivity this E w) = Ok b
      /\ db (snd (checkConnectivity this E w)) = db w
      /\ (b = true <->
          exists http_status latency_ms,
            peer_health E (tick w) (apiUrl this ++ "/health")
              = ProbeReply http_status latency_ms
            /\ 200 <= http_status < 300
            /\ latency_ms < 5000).
Proof.
  intros this E w.
  unfold checkConnectivity, try_catch, bind, axios_get, ret.
  destruct (peer_health E (tick w) (apiUrl this ++ "/health"))
    as [st lat | | msg] eqn:Hp.
  - destruct ((200 <=? st) && (st <? 300) && (lat <? 5000)) eqn:Hc.
    + exists true. cbn. repeat split; auto.
      intros _. exists st, lat.
      apply andb_true_iff in Hc as [Hc Hl].
      apply andb_true_iff in Hc as [Ha Hb].
      apply Nat.leb_le in Ha. apply Nat.ltb_lt in Hb, Hl.
      repeat split; auto.
    + exists false. cbn. repeat split; auto; try discriminate.
      intros (st' & lat' & Heq & [Ha Hb] & Hl).
      inversion Heq; subst st' lat'.
      apply Nat.leb_le in Ha. apply Nat.ltb_lt in Hb, Hl.
      rewrite Ha, Hb, Hl in Hc. discriminate.
  - exists false. cbn. repeat split; auto; try discriminate.
    intros (st' & lat' & Heq & _). discriminate.
  - exists false. cbn. repeat split; auto; try discriminate.
    intros (st' & lat' & Heq & _). discriminate.
Qed.

(* ===================================================================== *)
(** ** Running the services                                               *)
(* ===================================================================== *)

Lemma getTask_run :
  forall E id w,
    getTask id E w =
    match db_fault E (tick w) with
    | Some e => (Throw e, advance w)
    | None => (Ok (live_task id (db w)), advance w)
    end.
Proof.
  intros E id w. unfold getTask, bind, db_query, live_task.
  destruct (db_fault E (tick w)); [reflexivity |].
  destruct (sql_select_task_where_id id (db w)) as [row |]; [| reflexivity].
  destruct (t_is_deleted row); reflexivity.
Qed.

Lemma db_run_ok :
  forall E stmt w,
    no_db_faults E ->
    db_run stmt E w
    = (Ok tt, advance (with_db (stmt (clock E (tick w)) (db w)) w)).
Proof. intros E stmt w HE. unfold db_run. rewrite HE. reflexivity. Qed.

Lemma db_query_ok :
  forall E A (q : Db -> A) w,
    no_db_faults E -> db_query q E w = (Ok (q (db w)), advance w).
Proof. intros E A q w HE. unfold db_query. rewrite HE. reflexivity. Qed.

(** After [UPDATE tasks ... WHERE id = ?], the first row with that id is
    the updated image of the first row with that id before. *)
Lemma find_after_update :
  forall id set ts,
    (forall r, t_id (set r) = t_id r) ->
    find (fun r => String.eqb (t_id r) id)
         (map (fun r => if String.eqb (t_id r) id then set r else r) ts)
    = option_map set (find (fun r => String.eqb (t_id r) id) ts).
Proof.
  intros id set ts Hid. induction ts as [| r ts IH]; [reflexivity |].
  cbn. destruct (String.eqb (t_id r) id) eqn:Hr.
  - rewrite Hid, Hr. reflexivity.
  - rewrite Hr. exact IH.
Qed.

(** *** Record Service *)

(** C10. For a live record, [updateTask] with [is_deleted = true] among the
    fields persists the flag, so the next [getTask] finds nothing, and the
    entry it appends to the Mutation Log is an [update], not a [delete]. *)
Theorem updateTask_is_deleted_soft_deletes :
  forall (E : Env) (w : World) (id : string) (updates : PartialTask)
         (existing : Task),
    no_db_faults E ->
    live_task id (db w) = Some existing ->
    p_is_deleted updates = Some true ->
    exists updated w',
      updateTask id updates E w = (Ok (Some updated), w')
      /\ t_is_deleted updated = true
      /\ (forall row, In row (tasks (db w')) -> t_id row = id ->
                      t_is_deleted row = true)
      /\ fst (getTask id E w') = Ok None
      /\ exists entry,
           sync_queue (db w') = sync_queue (db w) ++ [entry]
           /\ q_task_id entry = id
           /\ q_operation entry = op_update
           /\ q_data entry = updates.
Proof.
  intros E w id updates existing HE Hlive Hdel.
  unfold updateTask, bind. rewrite getTask_run, HE, Hlive.
  unfold now, uuidv4. rewrite !db_run_ok by exact HE.
  eexists. eexists. split; [reflexivity |].
  cbn. unfold nullish. rewrite Hdel.
  split; [reflexivity |]. split.
  - intros row Hin Hid. apply in_map_iff in Hin as (r0 & Hr0 & _).
    destruct (String.eqb (t_id r0) id) eqn:Heq.
    + subst row. reflexivity.
    + subst row. apply String.eqb_neq in Heq. contradiction.
  - split.
    + rewrite getTask_run, HE. cbn. unfold live_task, sql_select_task_where_id.
      cbn. rewrite find_after_update by reflexivity.
      unfold live_task, sql_select_task_where_id in Hlive.
      destruct (find (fun r => String.eqb (t_id r) id) (tasks (db w)));
        [cbn; reflexivity | discriminate].
    + eexists. split; [reflexivity |]. cbn. auto.
Qed.

Lemma updateTask_is_deleted_soft_deletes_witness :
  no_db_faults E_ok
  /\ live_task "t1" (db w_t1) = Some task_t1
  /\ exists updated w',
       updateTask "t1" mark_deleted E_ok w_t1 = (Ok (Some updated), w')
       /\ t_is_deleted updated = true
       /\ fst (getTask "t1" E_ok w') = Ok None.
Proof.
  split; [intro n; reflexivity |]. split; [reflexivity |].
  destruct (updateTask_is_deleted_soft_deletes E_ok w_t1 "t1" mark_deleted
              task_t1 (fun n => eq_refl) eq_refl eq_refl)
    as (updated & w' & Hrun & Hdel & _ & Hget & _).
  exists updated, w'. auto.
Defined.

(** C3, as the code has it.  The record write and the append to the
    Mutation Log are two statements with no transaction around them.  When
    the operation returns, both have taken effect (or, for an absent or
    deleted record, neither was attempted).  When it throws, the log is as
    before and the record write either did not happen or happened alone:
    there is never a log entry without the record change, but a rejected
    append leaves the record change without a log entry. *)
Theorem mutations_write_then_append :
  forall (E : Env) (w : World),
    (forall taskData, exists task entry,
        q_task_id entry = t_id task /\ q_operation entry = op_create
        /\ match createTask taskData E w with
           | (Ok t, w') =>
               t = task
               /\ tasks (db w') = tasks (db w) ++ [task]
               /\ sync_queue (db w') = sync_queue (db w) ++ [entry]
           | (Throw _, w') =>
               sync_queue (db w') = sync_queue (db w)
               /\ (tasks (db w') = tasks (db w)
                   \/ tasks (db w') = tasks (db w) ++ [task])
           | (OutOfFuel, _) => False
           end)
    /\ (forall id updates, exists updated updatedAt entry,
        let written :=
          tasks (sql_update_tasks_where_id id
                   (set_updated updated updatedAt) (db w)) in
        q_task_id entry = id /\ q_operation entry = op_update
        /\ match updateTask id updates E w with
           | (Ok (Some t), w') =>
               t = updated /\ t_updated_at t = updatedAt
               /\ tasks (db w') = written
               /\ sync_queue (db w') = sync_queue (db w) ++ [entry]
           | (Ok None, w') => db w' = db w
           | (Throw _, w') =>
               sync_queue (db w') = sync_queue (db w)
               /\ (tasks (db w') = tasks (db w) \/ tasks (db w') = written)
           | (OutOfFuel, _) => False
           end)
    /\ (forall id, exists updatedAt entry,
        let written :=
          tasks (sql_update_tasks_where_id id (set_deleted updatedAt)
                   (db w)) in
        q_task_id entry = id /\ q_operation entry = op_delete
        /\ match deleteTask id E w with
           | (Ok true, w') =>
               tasks (db w') = written
               /\ sync_queue (db w') = sync_queue (db w) ++ [entry]
           | (Ok false, w') => db w' = db w
           | (Throw _, w') =>
               sync_queue (db w') = sync_queue (db w)
               /\ (tasks (db w') = tasks (db w) \/ tasks (db w') = written)
           | (OutOfFuel, _) => False
           end).
Proof.
  intros E w. split; [| split].
  - intros taskData.
    unfold createTask, bind, now, uuidv4, db_run, ret.
    destruct (truthy_string (p_id taskData)) as [given |]; cbn.
    + eexists. eexists. split; [| split].
      3: { destruct (db_fault E (S (tick w))); cbn.
           - split; [reflexivity | left; reflexivity].
           - destruct (db_fault E (S (S (S (tick w))))); cbn.
             + split; [reflexivity | right; reflexivity].
             + split; [reflexivity | split; reflexivity]. }
      all: reflexivity.
    + eexists. eexists. split; [| split].
      3: { destruct (db_fault E (S (S (tick w)))); cbn.
           - split; [reflexivity | left; reflexivity].
           - destruct (db_fault E (S (S (S (S (tick w)))))); cbn.
             + split; [reflexivity | right; reflexivity].
             + split; [reflexivity | split; reflexivity]. }
      all: reflexivity.
  - intros id updates.
    unfold updateTask, bind. rewrite getTask_run.
    destruct (db_fault E (tick w)).
    { exists task_t1, 0%Z, (mkItem "" id op_update updates 0%Z 0 None).
      cbn. auto. }
    destruct (live_task id (db w)) as [existing |].
    2: { exists task_t1, 0%Z, (mkItem "" id op_update updates 0%Z 0 None).
         cbn. auto. }
    unfold now, uuidv4, db_run, ret. cbn.
    eexists. eexists. eexists. split; [| split].
    3: { destruct (db_fault E (S (S (tick w)))); cbn.
         - split; [reflexivity | left; reflexivity].
         - destruct (db_fault E (S (S (S (S (tick w)))))); cbn.
           + split; [reflexivity | right; reflexivity].
           + repeat split; reflexivity. }
    all: reflexivity.
  - intros id.
    unfold deleteTask, bind. rewrite getTask_run.
    destruct (db_fault E (tick w)).
    { exists 0%Z, (mkItem "" id op_delete empty_partial 0%Z 0 None).
      cbn. auto. }
    destruct (live_task id (db w)) as [existing |].
    2: { exists 0%Z, (mkItem "" id op_delete empty_partial 0%Z 0 None).
         cbn. auto. }
    unfold now, uuidv4, db_run, ret. cbn.
    eexists. eexists. split; [| split].
    3: { destruct (db_fault E (S (S (tick w)))); cbn.
         - split; [reflexivity | left; reflexivity].
         - destruct (db_fault E (S (S (S (S (tick w)))))); cbn.
           + split; [reflexivity | right; reflexivity].
           + split; [reflexivity | split; reflexivity]. }
    all: reflexivity.
Qed.

(** C3, at a concrete input: the store rejects the append to the log after
    the record was inserted; [createTask] throws and leaves the record in
    the store with no log entry. *)
Lemma createTask_record_without_log_entry :
  fst (createTask empty_partial E_log_append_fails w_empty)
    = Throw "SQLITE_FULL"
  /\ List.length
       (tasks (db (snd (createTask empty_partial E_log_append_fails
                          w_empty)))) = 1
  /\ sync_queue (db (snd (createTask empty_partial E_log_append_fails
                            w_empty))) = [].
Proof. vm_compute. repeat split. Qed.

(** *** Per-item outcomes *)

Lemma updateSyncStatus_ok :
  forall E taskId st serverData w,
    no_db_faults E ->
    exists w',
      updateSyncStatus taskId st serverData E w = (Ok tt, w')
      /\ net_log w' = net_log w
      /\ tasks (db w')
         = map (fun row =>
                  if String.eqb (t_id row) taskId
                  then set_sync_status st
                         (truthy_string
                            (match serverData with
                             | Some d => p_server_id d
                             | None => None
                             end))
                         (clock E (tick w)) row
                  else row)
               (tasks (db w))
      /\ sync_queue (db w')
         = if SyncStatus_eqb st synced
           then filter (fun q => negb (String.eqb (q_task_id q) taskId))
                       (sync_queue (db w))
           else sync_queue (db w).
Proof.
  intros E taskId st serverData w HE.
  unfold updateSyncStatus, bind, now.
  rewrite db_run_ok by exact HE.
  destruct (SyncStatus_eqb st synced).
  - rewrite db_run_ok by exact HE. eexists. split; [reflexivity |].
    cbn. auto.
  - eexists. split; [reflexivity |]. cbn. auto.
Qed.

Lemma confirmed_item_run :
  forall E item r,
    no_db_faults E ->
    item_confirmed item = true ->
    exists r',
      on_processed_item item E r = (Ok tt, r')
      /\ successCount r' = S (successCount r)
      /\ failCount r' = failCount r
      /\ run_errors r' = run_errors r
      /\ net_log (world r') = net_log (world r)
      /\ tasks (db (world r'))
         = map (fun row =>
                  if String.eqb (t_id row) (client_id item)
                  then set_sync_status synced
                         (truthy_string (p_server_id (serverData_of item)))
                         (clock E (tick (world r))) row
                  else row)
               (tasks (db (world r)))
      /\ sync_queue (db (world r'))
         = filter (fun q => negb (String.eqb (q_task_id q) (client_id item)))
                  (sync_queue (db (world r))).
Proof.
  intros E item r HE Hc.
  destruct (updateSyncStatus_ok E (client_id item) synced
              (Some (serverData_of item)) (world r) HE)
    as (w' & Hrun & Hlog & Htasks & Hqueue).
  assert (Hgo : (incr_successCount ;;
                 in_world (updateSyncStatus (client_id item) synced
                             (Some (serverData_of item)))) E r
                = (Ok tt, {| world := w'; successCount := S (successCount r);
                             failCount := failCount r;
                             run_errors := run_errors r |})).
  { unfold bind, incr_successCount, in_world.
    cbn [world successCount failCount run_errors]. rewrite Hrun.
    reflexivity. }
  exists {| world := w'; successCount := S (successCount r);
            failCount := failCount r; run_errors := run_errors r |}.
  split.
  - unfold on_processed_item. unfold item_confirmed in Hc.
    destruct (String.eqb (status item) "success"); [exact Hgo |].
    cbn in Hc. rewrite Hc. exact Hgo.
  - cbn. repeat split; assumption.
Qed.

Lemma rejected_item_run :
  forall E item r,
    no_db_faults E ->
    item_confirmed item = false ->
    exists r',
      on_processed_item item E r = (Ok tt, r')
      /\ successCount r' = successCount r
      /\ failCount r' = S (failCount r)
      /\ run_errors r'
         = run_errors r
           ++ [{| e_task_id := client_id item;
                  e_operation := "sync";
                  e_error := nullish (truthy_string (pi_error item))
                               "Unknown sync error";
                  e_timestamp := clock E (tick (world r)) |}]
      /\ net_log (world r') = net_log (world r)
      /\ tasks (db (world r'))
         = map (fun row =>
                  if String.eqb (t_id row) (client_id item)
                  then set_sync_status error None
                         (clock E (S (tick (world r)))) row
                  else row)
               (tasks (db (world r)))
      /\ sync_queue (db (world r')) = sync_queue (db (world r)).
Proof.
  intros E item r HE Hc.
  destruct (updateSyncStatus_ok E (client_id item) error None
              (advance (world r)) HE)
    as (w' & Hrun & Hlog & Htasks & Hqueue).
  eexists. split.
  - unfold on_processed_item. unfold item_confirmed in Hc.
    apply orb_false_iff in Hc as [Hs Hk]. rewrite Hs, Hk.
    unfold bind, incr_failCount, in_world, now, errors_push.
    cbn [world successCount failCount run_errors andb].
    fold (advance (world r)). rewrite Hrun. reflexivity.
  - cbn. repeat split; assumption.
Qed.

(** C1, as the code has it.  For an outcome of [success], or [conflict]
    with resolved data, the orchestrator marks the target record [synced],
    stores the identifier given by the peer (a non-empty one; otherwise the
    stored one stays), sets [last_synced_at], and deletes from the Mutation
    Log every entry of that record: the entries that remain are exactly
    those of other records, unchanged and in their order. *)
Theorem confirmed_item_clears_the_record_entries :
  forall (E : Env) (item : ProcessedItem) (r : Run),
    no_db_faults E ->
    item_confirmed item = true ->
    exists r',
      on_processed_item item E r = (Ok tt, r')
      /\ successCount r' = S (successCount r)
      /\ failCount r' = failCount r
      /\ run_errors r' = run_errors r
      /\ tasks (db (world r'))
         = map (fun row =>
                  if String.eqb (t_id row) (client_id item)
                  then {| t_id := t_id row;
                          t_title := t_title row;
                          t_description := t_description row;
                          t_completed := t_completed row;
                          t_created_at := t_created_at row;
                          t_updated_at := t_updated_at row;
                          t_is_deleted := t_is_deleted row;
                          t_sync_status := synced;
                          t_server_id :=
                            match truthy_string
                                    (or_key
                                       (match resolved_data item with
                                        | Some d => p_server_id d
                                        | None => None
                                        end)
                                       (pi_server_id item)) with
                            | Some sid => Some sid
                            | None => t_server_id row
                            end;
                          t_last_synced_at :=
                            Some (clock E (tick (world r))) |}
                  else row)
               (tasks (db (world r)))
      /\ sync_queue (db (world r'))
         = filter (fun q => negb (String.eqb (q_task_id q) (client_id item)))
                  (sync_queue (db (world r)))
      /\ (forall q, In q (sync_queue (db (world r'))) <->
                    In q (sync_queue (db (world r)))
                    /\ q_task_id q <> client_id item).
Proof.
  intros E item r HE Hc.
  destruct (confirmed_item_run E item r HE Hc)
    as (r' & Hrun & Hs & Hf & He & _ & Ht & Hq).
  exists r'. repeat split; auto.
  - rewrite Ht. apply map_ext. intros row.
    destruct (String.eqb (t_id row) (client_id item)); [| reflexivity].
    unfold set_sync_status, serverData_of, COALESCE. cbn.
    destruct (resolved_data item); reflexivity.
  - rewrite Hq in H. apply filter_In in H. tauto.
  - rewrite Hq in H. apply filter_In in H as [_ H].
    apply negb_true_iff, String.eqb_neq in H. exact H.
  - intros [Hin Hne]. rewrite Hq. apply filter_In. split; [exact Hin |].
    apply negb_true_iff, String.eqb_neq. exact Hne.
Qed.

Lemma confirmed_item_clears_the_record_entries_witness :
  no_db_faults E_ok
  /\ item_confirmed confirmed_t1 = true
  /\ exists r',
       on_processed_item confirmed_t1 E_ok (mkRun w_t1 0 0 []) = (Ok tt, r')
       /\ successCount r' = 1
       /\ sync_queue (db (world r')) = [].
Proof.
  split; [intro n; reflexivity |]. split; [reflexivity |].
  destruct (confirmed_item_clears_the_record_entries E_ok confirmed_t1
              (mkRun w_t1 0 0 []) (fun n => eq_refl) eq_refl)
    as (r' & Hrun & Hs & _ & _ & _ & Hq & _).
  exists r'. repeat split; assumption.
Defined.

(** C1, at a concrete input: the log holds a [create] and a later [update]
    of the same record; the confirmation of the record removes the later,
    not yet confirmed entry as well. *)
Lemma confirmation_deletes_later_entry :
  In entry_update_t1 (sync_queue (db w_t1))
  /\ entry_update_t1 <> entry_create_t1
  /\ ~ In entry_update_t1
        (sync_queue (db (world (snd (on_processed_item confirmed_t1 E_ok
                                       (mkRun w_t1 0 0 [])))))).
Proof.
  split; [right; left; reflexivity |]. split; [discriminate |].
  vm_compute. intros [].
Qed.

(** C6, as the code has it.  For every other outcome the orchestrator marks
    the record [error], leaves the Mutation Log as it is and records an
    error detail; it also sets [last_synced_at] to the current time, as on
    the confirming outcomes.  Nothing else of the record changes. *)
Theorem rejected_item_marks_error_and_stamps :
  forall (E : Env) (item : ProcessedItem) (r : Run),
    no_db_faults E ->
    item_confirmed item = false ->
    exists r',
      on_processed_item item E r = (Ok tt, r')
      /\ successCount r' = successCount r
      /\ failCount r' = S (failCount r)
      /\ run_errors r'
         = run_errors r
           ++ [{| e_task_id := client_id item;
                  e_operation := "sync";
                  e_error := nullish (truthy_string (pi_error item))
                               "Unknown sync error";
                  e_timestamp := clock E (tick (world r)) |}]
      /\ sync_queue (db (world r')) = sync_queue (db (world r))
      /\ tasks (db (world r'))
         = map (fun row =>
                  if String.eqb (t_id row) (client_id item)
                  then {| t_id := t_id row;
                          t_title := t_title row;
                          t_description := t_description row;
                          t_completed := t_completed row;
                          t_created_at := t_created_at row;
                          t_updated_at := t_updated_at row;
                          t_is_deleted := t_is_deleted row;
                          t_sync_status := error;
                          t_server_id := t_server_id row;
                          t_last_synced_at :=
                            Some (clock E (S (tick (world r)))) |}
                  else row)
               (tasks (db (world r))).
Proof.
  intros E item r HE Hc.
  destruct (rejected_item_run E item r HE Hc)
    as (r' & Hrun & Hs & Hf & He & _ & Ht & Hq).
  exists r'. repeat split; auto.
Qed.

Lemma rejected_item_marks_error_and_stamps_witness :
  no_db_faults E_rejecting
  /\ item_confirmed rejected_t1 = false
  /\ exists r',
       on_processed_item rejected_t1 E_rejecting (mkRun w_t1 0 0 [])
         = (Ok tt, r')
       /\ failCount r' = 1
       /\ sync_queue (db (world r')) = sync_queue (db w_t1).
Proof.
  split; [intro n; reflexivity |]. split; [reflexivity |].
  destruct (rejected_item_marks_error_and_stamps E_rejecting rejected_t1
              (mkRun w_t1 0 0 []) (fun n => eq_refl) eq_refl)
    as (r' & Hrun & _ & Hf & _ & Hq & _).
  exists r'. repeat split; assumption.
Defined.

(** C6, at a concrete input: a record never synced before gets a
    [last_synced_at] from an [error] outcome. *)
Lemma error_outcome_sets_last_synced_at :
  map t_last_synced_at (tasks (db w_t1)) = [None]
  /\ map t_last_synced_at
       (tasks (db (world (snd (on_processed_item rejected_t1 E_rejecting
                                 (mkRun w_t1 0 0 []))))))
     = [Some 1%Z].
Proof. vm_compute. split; reflexivity. Qed.

(** *** [ORDER BY created_at ASC] *)

Lemma insert_by_created_at_perm :
  forall x l, Permutation (insert_by_created_at x l) (x :: l).
Proof.
  intros x l. induction l as [| y l IH]; cbn.
  - apply Permutation_refl.
  - destruct (q_created_at x <=? q_created_at y)%Z.
    + apply Permutation_refl.
    + eapply perm_trans; [apply perm_skip, IH | apply perm_swap].
Qed.

Lemma order_by_created_at_perm :
  forall l, Permutation (order_by_created_at l) l.
Proof.
  induction l as [| x l IH]; cbn.
  - apply perm_nil.
  - eapply perm_trans; [apply insert_by_created_at_perm |].
    apply perm_skip, IH.
Qed.

Lemma insert_by_created_at_sorted :
  forall x l,
    StronglySorted created_le l ->
    StronglySorted created_le (insert_by_created_at x l).
Proof.
  intros x l Hs. induction Hs as [| y l Hs IH Hall]; cbn.
  - repeat constructor.
  - destruct (Z.leb_spec (q_created_at x) (q_created_at y)) as [Hle | Hlt].
    + constructor; [constructor; assumption |].
      constructor; [exact Hle |].
      eapply Forall_impl; [| exact Hall].
      intros z Hz. unfold created_le in *. lia.
    + constructor; [exact IH |].
      eapply Permutation_Forall;
        [apply Permutation_sym, insert_by_created_at_perm |].
      constructor; [unfold created_le; lia | exact Hall].
Qed.

Lemma order_by_created_at_sorted :
  forall l, StronglySorted created_le (order_by_created_at l).
Proof.
  induction l as [| x l IH]; cbn.
  - constructor.
  - apply insert_by_created_at_sorted, IH.
Qed.

Lemma StronglySorted_filter :
  forall A (R : A -> A -> Prop) (f : A -> bool) l,
    StronglySorted R l -> StronglySorted R (filter f l).
Proof.
  intros A R f l Hs. induction Hs as [| x l Hs IH Hall]; cbn.
  - constructor.
  - destruct (f x); [| exact IH].
    constructor; [exact IH |].
    apply Forall_forall. intros y Hy. apply filter_In in Hy as [Hy _].
    rewrite Forall_forall in Hall. apply Hall, Hy.
Qed.

Lemma Permutation_filter :
  forall A (f : A -> bool) l l',
    Permutation l l' -> Permutation (filter f l) (filter f l').
Proof.
  intros A f l l' Hp. induction Hp; cbn.
  - apply perm_nil.
  - destruct (f x); [apply perm_skip |]; assumption.
  - destruct (f x), (f y);
      try apply perm_swap; try apply perm_skip; apply Permutation_refl.
  - eapply perm_trans; eassumption.
Qed.

(** *** Slices of the queue *)

Lemma firstn_slice :
  forall A (l : list A) i n,
    firstn i l ++ slice i (i + n) l = firstn (i + n) l.
Proof.
  intros A l i n. unfold slice.
  replace (i + n - i) with n by lia.
  revert l. induction i as [| i IH]; intros l; cbn.
  - reflexivity.
  - destruct l as [| x l]; cbn.
    + rewrite firstn_nil. reflexivity.
    + rewrite IH. reflexivity.
Qed.

Lemma slice_incl :
  forall A (l : list A) i j, incl (slice i j l) l.
Proof.
  intros A l i j x Hx. unfold slice in Hx.
  rewrite <- (firstn_skipn i l). apply in_or_app. right.
  rewrite <- (firstn_skipn (j - i) (skipn i l)). apply in_or_app. left.
  exact Hx.
Qed.

(** *** One batch *)

Lemma processBatch_run :
  forall E this batch w,
    processBatch this batch E w
    = (match peer_sync E (S (tick w)) (apiUrl this ++ "/sync")
               {| items := batch; client_timestamp := clock E (tick w) |}
       with
       | Reply data => Ok data
       | Fail e => Throw e
       | NoAnswer => OutOfFuel
       end,
       {| db := db w; tick := S (S (tick w));
          net_log :=
            net_log w
            ++ [{| x_request :=
                     {| items := batch;
                        client_timestamp := clock E (tick w) |};
                   x_reply :=
                     peer_sync E (S (tick w)) (apiUrl this ++ "/sync")
                       {| items := batch;
                          client_timestamp := clock E (tick w) |} |}] |}).
Proof.
  intros E this batch w. unfold processBatch, bind, now, axios_post.
  rewrite map_id. cbn.
  destruct (peer_sync E (S (tick w)) (apiUrl this ++ "/sync")
              {| items := batch; client_timestamp := clock E (tick w) |});
    reflexivity.
Qed.

Lemma for_each_processed_run :
  forall E its r,
    no_db_faults E ->
    exists r',
      for_each its on_processed_item E r = (Ok tt, r')
      /\ net_log (world r') = net_log (world r)
      /\ successCount r'
         = successCount r + List.length (filter item_confirmed its)
      /\ failCount r'
         = failCount r
           + List.length (filter (fun i => negb (item_confirmed i)) its)
      /\ map error_detail (run_errors r')
         = map error_detail (run_errors r)
           ++ map (fun i => (client_id i, "sync",
                             nullish (truthy_string (pi_error i))
                               "Unknown sync error"))
                  (filter (fun i => negb (item_confirmed i)) its).
Proof.
  intros E its r HE. revert r.
  induction its as [| item its IH]; intros r.
  - exists r. cbn. rewrite app_nil_r, !Nat.add_0_r. auto.
  - cbn [for_each]. unfold bind.
    destruct (item_confirmed item) eqn:Hc.
    + destruct (confirmed_item_run E item r HE Hc)
        as (r1 & Hrun & Hs & Hf & He & Hl & _).
      rewrite Hrun.
      destruct (IH r1) as (r' & Hrun' & Hl' & Hs' & Hf' & He').
      exists r'. cbn [filter]. rewrite Hc. cbn [negb List.length].
      rewrite Hrun', Hl', Hs', Hf', He', Hl, Hs, Hf, He.
      repeat split; auto; lia.
    + destruct (rejected_item_run E item r HE Hc)
        as (r1 & Hrun & Hs & Hf & He & Hl & _).
      rewrite Hrun.
      destruct (IH r1) as (r' & Hrun' & Hl' & Hs' & Hf' & He').
      exists r'. cbn [filter]. rewrite Hc. cbn [negb List.length map].
      rewrite Hrun', Hl', Hs', Hf', He', Hl, Hs, Hf, He.
      repeat split; auto; try lia.
      rewrite map_app, <- app_assoc. reflexivity.
Qed.

Lemma handleSyncError_ok :
  forall E this item message w,
    no_db_faults E ->
    exists w',
      handleSyncError this item message E w = (Ok tt, w')
      /\ net_log w' = net_log w
      /\ db w' = store_after_failure this message (db w) item.
Proof.
  intros E this item message w HE.
  unfold handleSyncError, store_after_failure, bind.
  destruct (maxRetries this <? q_retry_count item + 1).
  - rewrite !db_run_ok by exact HE. eexists. split; [reflexivity |].
    cbn. auto.
  - rewrite db_run_ok by exact HE. eexists. split; [reflexivity |].
    cbn. auto.
Qed.

Lemma for_each_failed_run :
  forall E this message batch r,
    no_db_faults E ->
    exists r',
      for_each batch (on_failed_item this message) E r = (Ok tt, r')
      /\ net_log (world r') = net_log (world r)
      /\ successCount r' = successCount r
      /\ failCount r' = failCount r + List.length batch
      /\ map error_detail (run_errors r')
         = map error_detail (run_errors r)
           ++ map (fun q => (q_task_id q,
                             Operation_to_string (q_operation q), message))
                  batch
      /\ db (world r')
         = fold_left (store_after_failure this message) batch (db (world r)).
Proof.
  intros E this message batch r HE. revert r.
  induction batch as [| item batch IH]; intros r.
  - exists r. cbn. rewrite app_nil_r, Nat.add_0_r. auto 10.
  - destruct (handleSyncError_ok E this item message (advance (world r)) HE)
      as (w1 & Hrun & Hl & Hdb).
    cbn [for_each]. unfold bind at 1.
    assert (Hitem :
      on_failed_item this message item E r
      = (Ok tt,
         {| world := w1; successCount := successCount r;
            failCount := S (failCount r);
            run_errors :=
              run_errors r
              ++ [{| e_task_id := q_task_id item;
                     e_operation := Operation_to_string (q_operation item);
                     e_error := message;
                     e_timestamp := clock E (tick (world r)) |}] |})).
    { unfold on_failed_item, bind, incr_failCount, in_world, now,
        errors_push.
      cbn [world successCount failCount run_errors].
      fold (advance (world r)). rewrite Hrun. reflexivity. }
    rewrite Hitem.
    destruct (IH {| world := w1; successCount := successCount r;
                    failCount := S (failCount r);
                    run_errors :=
                      run_errors r
                      ++ [{| e_task_id := q_task_id item;
                             e_operation :=
                               Operation_to_string (q_operation item);
                             e_error := message;
                             e_timestamp := clock E (tick (world r)) |}] |})
      as (r' & Hrun' & Hl' & Hs' & Hf' & He' & Hdb').
    exists r'. cbn [world successCount failCount run_errors] in *.
    rewrite Hrun', Hl', Hs', Hf', He', Hdb', Hl, Hdb.
    cbn [List.length map fold_left advance db net_log].
    repeat split; auto; try lia.
    rewrite map_app, <- app_assoc. reflexivity.
Qed.

(** One turn of the loop always completes: an answered batch is tallied by
    outcome, a failed send by entry. *)
Lemma sync_batch_run :
  forall E this batch r,
    no_db_faults E ->
    peer_sync E (S (tick (world r))) (apiUrl this ++ "/sync")
      {| items := batch; client_timestamp := clock E (tick (world r)) |}
    <> NoAnswer ->
    exists r' x,
      sync_batch this batch E r = (Ok tt, r')
      /\ net_log (world r') = net_log (world r) ++ [x]
      /\ items (x_request x) = batch
      /\ x_reply x
         = peer_sync E (S (tick (world r))) (apiUrl this ++ "/sync")
             {| items := batch;
                client_timestamp := clock E (tick (world r)) |}
      /\ successCount r' = successCount r + exchange_synced x
      /\ failCount r' = failCount r + exchange_failed x
      /\ map error_detail (run_errors r')
         = map error_detail (run_errors r) ++ exchange_error_details x
      /\ match x_reply x with
         | Fail message =>
             db (world r')
             = fold_left (store_after_failure this message) batch
                 (db (world r))
         | Reply _ => True
         | NoAnswer => True
         end.
Proof.
  intros E this batch r HE Hanswer.
  unfold sync_batch, try_catch, bind, in_world.
  rewrite processBatch_run.
  unfold exchange_synced, exchange_failed, exchange_error_details.
  destruct (peer_sync E (S (tick (world r))) (apiUrl this ++ "/sync")
              {| items := batch;
                 client_timestamp := clock E (tick (world r)) |})
    as [data | message |] eqn:Hreply; [| | contradiction].
  - match goal with
    | |- context [for_each _ on_processed_item E ?r0] =>
        destruct (for_each_processed_run E (processed_items data) r0 HE)
          as (r' & Hrun & Hl & Hs & Hf & He)
    end.
    rewrite Hrun. cbn [world successCount failCount run_errors] in *.
    exists r'. eexists. split; [reflexivity |].
    split; [rewrite Hl; reflexivity |].
    cbn [x_request x_reply items].
    repeat split; assumption.
  - match goal with
    | |- context [for_each _ (on_failed_item this message) E ?r0] =>
        destruct (for_each_failed_run E this message batch r0 HE)
          as (r' & Hrun & Hl & Hs & Hf & He & Hdb)
    end.
    rewrite Hrun. cbn [world successCount failCount run_errors] in *.
    exists r'. eexists. split; [reflexivity |].
    split; [rewrite Hl; reflexivity |].
    cbn [x_request x_reply items db].
    repeat split; try assumption. rewrite Hs. lia.
Qed.

(** *** The loop over the batches *)

(** An invariant carried by every turn is carried by the loop, which ends
    once the index has passed the last entry. *)
Lemma sync_loop_rule :
  forall E this queueItems (P : nat -> Run -> Prop),
    0 < batchSize this ->
    (forall i r,
        i < List.length queueItems -> P i r ->
        exists r',
          sync_batch this (slice i (i + batchSize this) queueItems) E r
            = (Ok tt, r')
          /\ P (i + batchSize this) r') ->
    forall fuel i r,
      List.length queueItems - i <= fuel -> P i r ->
      exists r' j,
        sync_loop fuel this queueItems i E r = (Ok tt, r')
        /\ List.length queueItems <= j /\ P j r'.
Proof.
  intros E this queueItems P Hbs Hstep.
  induction fuel as [| fuel IH]; intros i r Hfuel HP; cbn [sync_loop].
  - destruct (Nat.ltb_spec i (List.length queueItems)) as [Hlt | Hge];
      [lia |].
    exists r, i. auto.
  - destruct (Nat.ltb_spec i (List.length queueItems)) as [Hlt | Hge].
    + destruct (Hstep i r Hlt HP) as (r1 & Hrun & HP1).
      unfold bind. rewrite Hrun. apply IH; [lia | exact HP1].
    + exists r, i. auto.
Qed.

Lemma list_sum_map_snoc :
  forall A (f : A -> nat) l x,
    list_sum (map f (l ++ [x])) = list_sum (map f l) + f x.
Proof. intros A f l x. rewrite map_app, list_sum_app. cbn. lia. Qed.

Lemma drained_snoc :
  forall xs x, drained (xs ++ [x]) = drained xs ++ items (x_request x).
Proof.
  intros xs x. unfold drained. rewrite map_app, concat_app. cbn.
  rewrite app_nil_r. reflexivity.
Qed.

Lemma flat_map_snoc :
  forall A B (f : A -> list B) l x, flat_map f (l ++ [x]) = flat_map f l ++ f x.
Proof.
  intros A B f l x. rewrite flat_map_app. cbn. rewrite app_nil_r.
  reflexivity.
Qed.

Lemma sync_batch_tallied :
  forall E this log0 queueItems i r,
    no_db_faults E ->
    peer_answers E ->
    tallied E log0 queueItems i r ->
    exists r',
      sync_batch this (slice i (i + batchSize this) queueItems) E r
        = (Ok tt, r')
      /\ tallied E log0 queueItems (i + batchSize this) r'.
Proof.
  intros E this log0 queueItems i r HE HA (xs & Hl & Hd & Hs & Hf & He).
  destruct (sync_batch_run E this
              (slice i (i + batchSize this) queueItems) r HE (HA _ _ _))
    as (r' & x & Hrun & Hl' & Hx & _ & Hs' & Hf' & He' & _).
  exists r'. split; [exact Hrun |].
  exists (xs ++ [x]). repeat split.
  - rewrite Hl', Hl, app_assoc. reflexivity.
  - rewrite drained_snoc, Hd, Hx. apply firstn_slice.
  - rewrite list_sum_map_snoc, Hs', Hs. reflexivity.
  - rewrite list_sum_map_snoc, Hf', Hf. reflexivity.
  - rewrite flat_map_snoc, He', He. reflexivity.
Qed.

Lemma sync_drain_run :
  forall E this queueItems w,
    no_db_faults E ->
    peer_answers E ->
    0 < batchSize this ->
    exists result w' xs,
      sync_drain this queueItems E w = (Ok result, w')
      /\ net_log w' = net_log w ++ xs
      /\ drained xs = queueItems
      /\ synced_items result = list_sum (map exchange_synced xs)
      /\ failed_items result = list_sum (map exchange_failed xs)
      /\ map error_detail (errors result)
         = flat_map exchange_error_details xs
      /\ success result = (failed_items result =? 0).
Proof.
  intros E this queueItems w HE HA Hbs.
  destruct (sync_loop_rule E this queueItems
              (tallied E (net_log w) queueItems) Hbs
              (fun i r _ H => sync_batch_tallied E this _ _ i r HE HA H)
              (List.length queueItems) 0 (mkRun w 0 0 []))
    as (r' & j & Hrun & Hj & xs & Hl & Hd & Hs & Hf & He).
  - lia.
  - exists []. cbn. rewrite app_nil_r. auto.
  - unfold sync_drain, with_locals, bind. rewrite Hrun.
    unfold get_run, ret. eexists. exists (world r'), xs.
    split; [reflexivity |]. cbn.
    rewrite firstn_all2 in Hd by exact Hj.
    repeat split; assumption.
Qed.

Lemma sync_run :
  forall E this w,
    no_db_faults E ->
    peer_answers E ->
    0 < batchSize this ->
    exists result w' xs,
      sync this E w = (Ok result, w')
      /\ net_log w' = net_log w ++ xs
      /\ drained xs = sql_select_sync_queue_ordered (db w)
      /\ synced_items result = list_sum (map exchange_synced xs)
      /\ failed_items result = list_sum (map exchange_failed xs)
      /\ map error_detail (errors result)
         = flat_map exchange_error_details xs
      /\ success result = (failed_items result =? 0).
Proof.
  intros E this w HE HA Hbs.
  unfold sync, bind. rewrite db_query_ok by exact HE.
  destruct (sync_drain_run E this (sql_select_sync_queue_ordered (db w))
              (advance w) HE HA Hbs)
    as (result & w' & xs & Hrun & H).
  exists result, w', xs. split; [exact Hrun | exact H].
Qed.

Lemma list_sum_zero :
  forall l, list_sum l = 0 <-> (forall n, In n l -> n = 0).
Proof.
  unfold list_sum. induction l as [| a l IH]; cbn.
  - split; [intros _ n [] | reflexivity].
  - split.
    + intros H n [Hn | Hn]; [lia |]. apply IH; [lia | exact Hn].
    + intros H. rewrite (H a) by (left; reflexivity).
      apply IH. intros n Hn. apply H. right. exact Hn.
Qed.

(** C5. Whatever the Mutation Log holds and whatever the peer answers
    batch after batch, a response or a failed send, [sync()] sends every
    batch, in order: a failed send is
    tallied as one failure per entry of that batch and the loop goes on.
    The run returns an aggregate whose counts are the sums over the
    batches, whose error list has one detail (record id, operation,
    message, and a timestamp) per failure, and whose [success] flag holds
    exactly when no batch had a failure. *)
Theorem sync_returns_the_aggregate :
  forall (E : Env) (this : SyncService) (w : World),
    no_db_faults E ->
    peer_answers E ->
    0 < batchSize this ->
    exists result w' exchanges,
      sync this E w = (Ok result, w')
      /\ net_log w' = net_log w ++ exchanges
      /\ drained exchanges = sql_select_sync_queue_ordered (db w)
      /\ synced_items result = list_sum (map exchange_synced exchanges)
      /\ failed_items result = list_sum (map exchange_failed exchanges)
      /\ map error_detail (errors result)
         = flat_map exchange_error_details exchanges
      /\ List.length (errors result) = failed_items result
      /\ (success result = true <->
          forall x, In x exchanges -> exchange_failed x = 0).
Proof.
  intros E this w HE HA Hbs.
  destruct (sync_run E this w HE HA Hbs)
    as (result & w' & xs & Hrun & Hl & Hd & Hs & Hf & He & Hok).
  exists result, w', xs. repeat split; try assumption.
  - rewrite <- (length_map error_detail), He, Hf.
    clear. induction xs as [| x xs IH]; [reflexivity |].
    cbn. rewrite length_app, IH. f_equal.
    unfold exchange_error_details, exchange_failed.
    destruct (x_reply x); [apply length_map .. | reflexivity].
  - intros Hsucc x Hx. rewrite Hok in Hsucc.
    apply Nat.eqb_eq in Hsucc. rewrite Hf in Hsucc.
    apply (proj1 (list_sum_zero _) Hsucc). apply in_map. exact Hx.
  - intros Hall. rewrite Hok. apply Nat.eqb_eq. rewrite Hf.
    apply list_sum_zero. intros n Hn.
    apply in_map_iff in Hn as (x & Hx & Hin). subst n. apply Hall, Hin.
Qed.

Lemma sync_returns_the_aggregate_witness :
  no_db_faults E_peer_down
  /\ peer_answers E_peer_down
  /\ 0 < batchSize service_batch_1
  /\ exists result w' exchanges,
       sync service_batch_1 E_peer_down w_t1 = (Ok result, w')
       /\ drained exchanges = [entry_create_t1; entry_update_t1]
       /\ List.length (errors result) = failed_items result
       /\ (success result = true <->
           forall x, In x exchanges -> exchange_failed x = 0).
Proof.
  assert (HA : peer_answers E_peer_down) by (intros n url req; discriminate).
  split; [intro n; reflexivity |]. split; [exact HA |].
  split; [cbn; lia |].
  destruct (sync_returns_the_aggregate E_peer_down service_batch_1 w_t1
              (fun n => eq_refl) HA (le_n 1))
    as (result & w' & xs & Hrun & _ & Hd & _ & _ & _ & Hlen & Hok).
  exists result, w', xs. repeat split; try assumption; apply Hok.
Defined.

(** Where no two entries carry the same instant, ascending is strictly
    ascending. *)
Lemma StronglySorted_created_lt :
  forall l,
    StronglySorted created_le l ->
    NoDup (map q_created_at l) ->
    StronglySorted created_lt l.
Proof.
  intros l Hs. induction Hs as [| x l Hs IH Hall]; intros Hnd.
  - constructor.
  - cbn in Hnd. inversion Hnd as [| ? ? Hnotin Hnd']; subst.
    constructor; [apply IH, Hnd' |].
    rewrite Forall_forall in *. intros y Hy.
    specialize (Hall y Hy). unfold created_le, created_lt in *.
    assert (q_created_at x <> q_created_at y).
    { intros Heq. apply Hnotin. rewrite Heq. apply in_map, Hy. }
    lia.
Qed.

(** *** The Record Service feeds the log, the orchestrator drains it *)

Lemma createTask_ok :
  forall E taskData w,
    no_db_faults E ->
    exists task w' entry,
      createTask taskData E w = (Ok task, w')
      /\ sync_queue (db w') = sync_queue (db w) ++ [entry]
      /\ q_task_id entry = t_id task
      /\ q_operation entry = op_create
      /\ q_created_at entry = clock E (tick w' - 1).
Proof.
  intros E taskData w HE.
  unfold createTask, bind, now, uuidv4.
  destruct (truthy_string (p_id taskData)) as [given |];
    unfold ret; rewrite !db_run_ok by exact HE;
    (eexists; eexists; eexists; split; [reflexivity |]);
    cbn; rewrite ?Nat.sub_0_r; auto.
Qed.

Lemma updateTask_ok :
  forall E id updates w,
    no_db_faults E ->
    match live_task id (db w) with
    | Some existing =>
        exists updated w' entry,
          updateTask id updates E w = (Ok (Some updated), w')
          /\ sync_queue (db w') = sync_queue (db w) ++ [entry]
          /\ q_task_id entry = id
          /\ q_operation entry = op_update
          /\ q_created_at entry = clock E (tick w' - 1)
    | None => updateTask id updates E w = (Ok None, advance w)
    end.
Proof.
  intros E id updates w HE.
  unfold updateTask, bind. rewrite getTask_run, HE.
  destruct (live_task id (db w)) as [existing |]; [| reflexivity].
  unfold now, uuidv4, ret. rewrite !db_run_ok by exact HE.
  eexists; eexists; eexists; split; [reflexivity |].
  cbn; rewrite ?Nat.sub_0_r; auto.
Qed.

Lemma deleteTask_ok :
  forall E id w,
    no_db_faults E ->
    match live_task id (db w) with
    | Some existing =>
        exists w' entry,
          deleteTask id E w = (Ok true, w')
          /\ sync_queue (db w') = sync_queue (db w) ++ [entry]
          /\ q_task_id entry = id
          /\ q_operation entry = op_delete
          /\ q_created_at entry = clock E (tick w' - 1)
    | None => deleteTask id E w = (Ok false, advance w)
    end.
Proof.
  intros E id w HE.
  unfold deleteTask, bind. rewrite getTask_run, HE.
  destruct (live_task id (db w)) as [existing |]; [| reflexivity].
  unfold now, uuidv4, ret. rewrite !db_run_ok by exact HE.
  eexists; eexists; split; [reflexivity |].
  cbn; rewrite ?Nat.sub_0_r; auto.
Qed.

Lemma apply_mutations_ok :
  forall E ms w,
    no_db_faults E -> exists w', apply_mutations ms E w = (Ok tt, w').
Proof.
  intros E ms w HE. revert w. unfold apply_mutations.
  induction ms as [| m ms IH]; intros w; cbn [for_each].
  - exists w. reflexivity.
  - assert (Hm : exists w1, apply_mutation m E w = (Ok tt, w1)).
    { destruct m as [taskData | id updates | id]; unfold apply_mutation, bind.
      - destruct (createTask_ok E taskData w HE) as (tk & w1 & e & Hrun & _).
        rewrite Hrun. eexists. reflexivity.
      - pose proof (updateTask_ok E id updates w HE) as H.
        destruct (live_task id (db w)).
        + destruct H as (tk & w1 & e & Hrun & _). rewrite Hrun.
          eexists. reflexivity.
        + rewrite H. eexists. reflexivity.
      - pose proof (deleteTask_ok E id w HE) as H.
        destruct (live_task id (db w)).
        + destruct H as (w1 & e & Hrun & _). rewrite Hrun.
          eexists. reflexivity.
        + rewrite H. eexists. reflexivity. }
    destruct Hm as (w1 & Hm). unfold bind. rewrite Hm. apply IH.
Qed.

(** C2, as the code has it.  Every mutation of the Record Service that
    takes effect appends one entry to the Mutation Log, stamped with the
    time of the append; and after any sequence of mutations [sync()] drains
    the whole log in ascending creation time, so the drained entries of
    each record are exactly the stored entries of that record and none is
    sent before one with an earlier instant, whatever the order of the rows
    in the store.  The order is by the instants alone: it is strict only
    where the entries of the record carry distinct instants, and entries
    stamped with the same instant are not ordered by it. *)
Theorem mutation_log_drained_oldest_first :
  forall (E : Env) (this : SyncService),
    no_db_faults E ->
    peer_answers E ->
    0 < batchSize this ->
    (forall w taskData,
        exists task w' entry,
          createTask taskData E w = (Ok task, w')
          /\ sync_queue (db w') = sync_queue (db w) ++ [entry]
          /\ q_task_id entry = t_id task
          /\ q_operation entry = op_create
          /\ q_created_at entry = clock E (tick w' - 1))
    /\ (forall w id updates,
        match live_task id (db w) with
        | Some existing =>
            exists updated w' entry,
              updateTask id updates E w = (Ok (Some updated), w')
              /\ sync_queue (db w') = sync_queue (db w) ++ [entry]
              /\ q_task_id entry = id
              /\ q_operation entry = op_update
              /\ q_created_at entry = clock E (tick w' - 1)
        | None => updateTask id updates E w = (Ok None, advance w)
        end)
    /\ (forall w id,
        match live_task id (db w) with
        | Some existing =>
            exists w' entry,
              deleteTask id E w = (Ok true, w')
              /\ sync_queue (db w') = sync_queue (db w) ++ [entry]
              /\ q_task_id entry = id
              /\ q_operation entry = op_delete
              /\ q_created_at entry = clock E (tick w' - 1)
        | None => deleteTask id E w = (Ok false, advance w)
        end)
    /\ (forall w ms,
        exists w1 result w2 exchanges,
          apply_mutations ms E w = (Ok tt, w1)
          /\ sync this E w1 = (Ok result, w2)
          /\ net_log w2 = net_log w1 ++ exchanges
          /\ Permutation (drained exchanges) (sync_queue (db w1))
          /\ StronglySorted created_le (drained exchanges)
          /\ forall record_id,
               StronglySorted created_le
                 (entries_of record_id (drained exchanges))
               /\ Permutation (entries_of record_id (drained exchanges))
                    (entries_of record_id (sync_queue (db w1)))
               /\ (NoDup (map q_created_at
                             (entries_of record_id (sync_queue (db w1)))) ->
                   StronglySorted created_lt
                     (entries_of record_id (drained exchanges)))).
Proof.
  intros E this HE HA Hbs. split; [| split; [| split]].
  - intros w taskData. apply createTask_ok, HE.
  - intros w id updates. apply updateTask_ok, HE.
  - intros w id. apply deleteTask_ok, HE.
  - intros w ms.
    destruct (apply_mutations_ok E ms w HE) as (w1 & Hms).
    destruct (sync_run E this w1 HE HA Hbs)
      as (result & w2 & xs & Hrun & Hl & Hd & _).
    exists w1, result, w2, xs.
    unfold sql_select_sync_queue_ordered in Hd.
    repeat split; try assumption.
    + rewrite Hd. apply order_by_created_at_perm.
    + rewrite Hd. apply order_by_created_at_sorted.
    + apply StronglySorted_filter. rewrite Hd.
      apply order_by_created_at_sorted.
    + apply Permutation_filter. rewrite Hd.
      apply order_by_created_at_perm.
    + intros Hnd. apply StronglySorted_created_lt.
      * apply StronglySorted_filter. rewrite Hd.
        apply order_by_created_at_sorted.
      * eapply Permutation_NoDup; [| exact Hnd].
        apply Permutation_map, Permutation_sym, Permutation_filter.
        rewrite Hd. apply order_by_created_at_perm.
Qed.

Lemma mutation_log_drained_oldest_first_witness :
  no_db_faults E_ok
  /\ peer_answers E_ok
  /\ 0 < batchSize default_service
  /\ exists w1 result w2 exchanges,
       apply_mutations [Create empty_partial; Delete "uuid-a"] E_ok w_empty
         = (Ok tt, w1)
       /\ sync default_service E_ok w1 = (Ok result, w2)
       /\ net_log w2 = net_log w1 ++ exchanges
       /\ StronglySorted created_le
            (entries_of "uuid-a" (drained exchanges)).
Proof.
  assert (HA : peer_answers E_ok) by (intros n url req; discriminate).
  split; [intro n; reflexivity |]. split; [exact HA |].
  split; [cbn; lia |].
  destruct (mutation_log_drained_oldest_first E_ok default_service
              (fun n => eq_refl) HA (Nat.lt_0_succ 9))
    as (_ & _ & _ & H).
  destruct (H w_empty [Create empty_partial; Delete "uuid-a"])
    as (w1 & result & w2 & xs & Hms & Hrun & Hl & _ & _ & Hrec).
  exists w1, result, w2, xs. repeat split; try assumption.
  apply (Hrec "uuid-a").
Defined.

(** C2, at a concrete input: a record is created and updated while the
    clock reads the same instant (two calls within one tick of the clock).
    Both entries of the record carry that instant, and the drained entries
    of the record are not in strict creation-time order. *)
Lemma same_instant_entries_are_not_strictly_ordered :
  exists w1 result w2,
    apply_mutations [Create named_t1; Update "t1" (q_data entry_update_t1)]
      E_frozen_clock w_empty = (Ok tt, w1)
    /\ sync default_service E_frozen_clock w1 = (Ok result, w2)
    /\ map q_operation (entries_of "t1" (drained (net_log w2)))
       = [op_create; op_update]
    /\ map q_created_at (entries_of "t1" (drained (net_log w2)))
       = [0%Z; 0%Z]
    /\ ~ StronglySorted created_lt (entries_of "t1" (drained (net_log w2))).
Proof.
  eexists. eexists. eexists.
  split; [vm_compute; reflexivity |]. split; [vm_compute; reflexivity |].
  split; [vm_compute; reflexivity |]. split; [vm_compute; reflexivity |].
  vm_compute. intros H.
  inversion H as [| ? ? _ Hall]; subst.
  inversion Hall as [| ? ? Hlt _]; subst.
  discriminate Hlt.
Qed.

(** *** Failed sends *)

Lemma unique_id :
  forall (l : list SyncQueueItem) q x,
    NoDup (map q_id l) -> In q l -> In x l -> q_id q = q_id x -> q = x.
Proof.
  induction l as [| y l IH]; intros q x Hnd Hq Hx Heq; [contradiction |].
  cbn in Hnd. inversion Hnd as [| ? ? Hnotin Hnd']; subst.
  destruct Hq as [Hq | Hq], Hx as [Hx | Hx]; subst.
  - reflexivity.
  - exfalso. apply Hnotin. rewrite Heq. apply in_map. exact Hx.
  - exfalso. apply Hnotin. rewrite <- Heq. apply in_map. exact Hq.
  - apply IH; assumption.
Qed.

Lemma existsb_perm :
  forall A (f : A -> bool) l l',
    Permutation l l' -> existsb f l = existsb f l'.
Proof.
  intros A f l l' Hp. induction Hp; cbn.
  - reflexivity.
  - rewrite IHHp. reflexivity.
  - destruct (f x), (f y); reflexivity.
  - congruence.
Qed.

Lemma store_after_failure_queue :
  forall this message d x,
    sync_queue (store_after_failure this message d x)
    = map (fun q =>
             if String.eqb (q_id q) (q_id x)
             then {| q_id := q_id q; q_task_id := q_task_id q;
                     q_operation := q_operation q; q_data := q_data q;
                     q_created_at := q_created_at q;
                     q_retry_count := q_retry_count x + 1;
                     q_error_message := Some message |}
             else q)
          (sync_queue d).
Proof.
  intros this message d x. unfold store_after_failure.
  destruct (maxRetries this <? q_retry_count x + 1); reflexivity.
Qed.

Lemma store_after_failure_tasks :
  forall this message d x,
    tasks (store_after_failure this message d x)
    = if maxRetries this <? q_retry_count x + 1
      then map (fun row =>
                  if String.eqb (t_id row) (q_task_id x)
                  then set_error row else row)
               (tasks d)
      else tasks d.
Proof.
  intros this message d x. unfold store_after_failure.
  destruct (maxRetries this <? q_retry_count x + 1); reflexivity.
Qed.

(** The store after the failures of a whole batch of stored entries: each
    entry of the batch has one more retry and the message, and a record is
    set to [error] exactly when the batch holds an entry of it whose new
    count passes the maximum. *)
Lemma failures_closed_form :
  forall this message batch d,
    NoDup (map q_id (sync_queue d)) ->
    incl batch (sync_queue d) ->
    sync_queue (fold_left (store_after_failure this message) batch d)
    = map (fun q => if in_batch batch q then record_failure message q else q)
          (sync_queue d)
    /\ tasks (fold_left (store_after_failure this message) batch d)
       = map (fun row =>
                if exhausted_in this batch row then set_error row else row)
             (tasks d).
Proof.
  intros this message batch d Hnd.
  induction batch as [| x batch IH] using rev_ind; intros Hincl.
  - cbn. rewrite !map_id. auto.
  - assert (Hx : In x (sync_queue d)).
    { apply Hincl, in_or_app. right. left. reflexivity. }
    destruct IH as [IHq IHt].
    { intros y Hy. apply Hincl, in_or_app. left. exact Hy. }
    rewrite fold_left_app. cbn [fold_left].
    rewrite store_after_failure_queue, store_after_failure_tasks, IHq, IHt.
    split.
    + rewrite map_map. apply map_ext_in. intros q Hq.
      unfold in_batch. rewrite existsb_app. cbn [existsb].
      rewrite orb_false_r, (String.eqb_sym (q_id x) (q_id q)).
      fold (in_batch batch q).
      assert (Hid : q_id (if in_batch batch q
                          then record_failure message q else q) = q_id q).
      { destruct (in_batch batch q); reflexivity. }
      rewrite Hid.
      destruct (String.eqb (q_id q) (q_id x)) eqn:Heq.
      * apply String.eqb_eq in Heq.
        assert (q = x) by (apply (unique_id (sync_queue d)); assumption).
        subst q. rewrite orb_true_r.
        destruct (in_batch batch x); reflexivity.
      * rewrite orb_false_r. reflexivity.
    + assert (Hgoal :
        map (fun row =>
               if String.eqb (t_id row) (q_task_id x)
                  && (maxRetries this <? q_retry_count x + 1)
               then set_error row else row)
            (map (fun row =>
                    if exhausted_in this batch row
                    then set_error row else row) (tasks d))
        = map (fun row =>
                 if exhausted_in this (batch ++ [x]) row
                 then set_error row else row) (tasks d)).
      { rewrite map_map. apply map_ext. intros row.
        unfold exhausted_in. rewrite existsb_app. cbn [existsb].
        rewrite orb_false_r. fold (exhausted_in this batch row).
        assert (Hid : t_id (if exhausted_in this batch row
                            then set_error row else row) = t_id row).
        { destruct (exhausted_in this batch row); reflexivity. }
        rewrite Hid.
        destruct (exhausted_in this batch row),
                 (String.eqb (t_id row) (q_task_id x)
                  && (maxRetries this <? q_retry_count x + 1));
          reflexivity. }
      rewrite <- Hgoal.
      destruct (maxRetries this <? q_retry_count x + 1).
      * apply map_ext. intros row. rewrite andb_true_r. reflexivity.
      * symmetry. rewrite <- (map_id (map _ (tasks d))) at 2.
        apply map_ext. intros row. rewrite andb_false_r. reflexivity.
Qed.

Lemma sync_batch_failures_stored :
  forall E this message d0 queueItems i r,
    no_db_faults E ->
    (forall n url req, peer_sync E n url req = Fail message) ->
    failures_stored this message d0 queueItems i r ->
    exists r',
      sync_batch this (slice i (i + batchSize this) queueItems) E r
        = (Ok tt, r')
      /\ failures_stored this message d0 queueItems (i + batchSize this) r'.
Proof.
  intros E this message d0 queueItems i r HE Hdown Hst.
  destruct (sync_batch_run E this
              (slice i (i + batchSize this) queueItems) r HE)
    as (r' & x & Hrun & _ & _ & Hreply & _ & _ & _ & Hdb);
    [rewrite Hdown; discriminate |].
  exists r'. split; [exact Hrun |].
  rewrite Hreply, Hdown in Hdb. unfold failures_stored in *.
  rewrite Hdb, Hst, <- fold_left_app, firstn_slice. reflexivity.
Qed.

(** A whole run against a peer that cannot be reached. *)
Lemma sync_run_peer_down :
  forall E this message w,
    no_db_faults E ->
    0 < batchSize this ->
    (forall n url req, peer_sync E n url req = Fail message) ->
    NoDup (map q_id (sync_queue (db w))) ->
    exists result w',
      sync this E w = (Ok result, w')
      /\ sync_queue (db w') = map (record_failure message) (sync_queue (db w))
      /\ tasks (db w')
         = map (fun row =>
                  if exhausted_in this (sync_queue (db w)) row
                  then set_error row else row)
               (tasks (db w)).
Proof.
  intros E this message w HE Hbs Hdown Hnd.
  set (queueItems := sql_select_sync_queue_ordered (db w)).
  destruct (sync_loop_rule E this queueItems
              (failures_stored this message (db w) queueItems) Hbs
              (fun i r _ H =>
                 sync_batch_failures_stored E this message (db w)
                   queueItems i r HE Hdown H)
              (List.length queueItems) 0 (mkRun (advance w) 0 0 []))
    as (r' & j & Hrun & Hj & Hst).
  - lia.
  - reflexivity.
  - unfold sync, bind. rewrite db_query_ok by exact HE.
    fold queueItems. unfold sync_drain, with_locals, bind.
    rewrite Hrun. unfold get_run, ret.
    eexists. exists (world r'). split; [reflexivity |].
    unfold failures_stored in Hst. rewrite firstn_all2 in Hst by exact Hj.
    assert (Hperm : Permutation queueItems (sync_queue (db w)))
      by apply order_by_created_at_perm.
    destruct (failures_closed_form this message queueItems (db w) Hnd)
      as [Hq Ht].
    { intros y Hy. eapply Permutation_in; eassumption. }
    rewrite Hst, Hq, Ht. split.
    + apply map_ext_in. intros q Hq'.
      assert (Hin : in_batch queueItems q = true).
      { apply existsb_exists. exists q. split.
        - eapply Permutation_in; [apply Permutation_sym, Hperm | exact Hq'].
        - apply String.eqb_refl. }
      rewrite Hin. reflexivity.
    + apply map_ext. intros row. unfold exhausted_in.
      rewrite (existsb_perm _ _ _ _ Hperm). reflexivity.
Qed.

Lemma record_failure_ids :
  forall message l,
    map q_id (map (record_failure message) l) = map q_id l.
Proof. intros message l. rewrite map_map. reflexivity. Qed.

(** An entry that has [k] failures to go before its count passes the
    maximum, after [k] runs against a peer that cannot be reached. *)
Lemma retries_run_out :
  forall E this message,
    no_db_faults E ->
    0 < batchSize this ->
    (forall n url req, peer_sync E n url req = Fail message) ->
    forall k w entry,
      NoDup (map q_id (sync_queue (db w))) ->
      In entry (sync_queue (db w)) ->
      q_retry_count entry + S k = maxRetries this + 1 ->
      exists w',
        sync_times (S k) this E w = (Ok tt, w')
        /\ In (exhausted_entry this message entry) (sync_queue (db w'))
        /\ (forall row, In row (tasks (db w')) ->
                        t_id row = q_task_id entry ->
                        t_sync_status row = error)
        /\ (forall row, In row (tasks (db w)) ->
                        t_id row = q_task_id entry ->
                        In (set_error row) (tasks (db w'))).
Proof.
  intros E this message HE Hbs Hdown.
  induction k as [| k IH]; intros w entry Hnd Hin Hcount.
  - destruct (sync_run_peer_down E this message w HE Hbs Hdown Hnd)
      as (result & w' & Hrun & Hq & Ht).
    exists w'. cbn [sync_times]. unfold bind, ret. rewrite Hrun.
    split; [reflexivity |].
    assert (Hex : forall row, t_id row = q_task_id entry ->
                              exhausted_in this (sync_queue (db w)) row
                              = true).
    { intros row Hid. apply existsb_exists. exists entry.
      split; [exact Hin |]. rewrite Hid, String.eqb_refl. cbn.
      apply Nat.ltb_lt. lia. }
    split; [| split].
    + rewrite Hq.
      replace (exhausted_entry this message entry)
        with (record_failure message entry).
      * apply in_map, Hin.
      * unfold record_failure, exhausted_entry. f_equal. lia.
    + intros row Hrow Hid. rewrite Ht in Hrow.
      apply in_map_iff in Hrow as (row0 & Heq & _).
      destruct (exhausted_in this (sync_queue (db w)) row0) eqn:Hx.
      * subst row. reflexivity.
      * subst row. rewrite Hex in Hx by exact Hid. discriminate.
    + intros row Hrow Hid. rewrite Ht.
      apply in_map_iff. exists row. rewrite Hex by exact Hid. auto.
  - destruct (sync_run_peer_down E this message w HE Hbs Hdown Hnd)
      as (result & w1 & Hrun & Hq & Ht).
    destruct (IH w1 (record_failure message entry))
      as (w' & Hrun' & Hin' & Herr & Hrows).
    + rewrite Hq, record_failure_ids. exact Hnd.
    + rewrite Hq. apply in_map, Hin.
    + cbn. lia.
    + exists w'. change (sync_times (S (S k)) this)
        with (sync this ;; sync_times (S k) this).
      unfold bind at 1. rewrite Hrun.
      split; [exact Hrun' |]. split; [exact Hin' |].
      split; [exact Herr |].
      intros row Hrow Hid.
      assert (Hstep : In (if exhausted_in this (sync_queue (db w)) row
                          then set_error row else row) (tasks (db w1))).
      { rewrite Ht. apply in_map_iff. exists row. auto. }
      destruct (exhausted_in this (sync_queue (db w)) row).
      * apply (Hrows (set_error row) Hstep Hid).
      * apply (Hrows row Hstep Hid).
Qed.

Lemma after_failed_batch_snoc :
  forall message batch x q,
    after_failed_batch message (batch ++ [x]) q
    = if String.eqb (q_id x) (q_id q)
      then {| q_id := q_id q; q_task_id := q_task_id q;
              q_operation := q_operation q; q_data := q_data q;
              q_created_at := q_created_at q;
              q_retry_count := q_retry_count x + 1;
              q_error_message := Some message |}
      else after_failed_batch message batch q.
Proof.
  intros message batch x q. unfold after_failed_batch.
  rewrite rev_app_distr. cbn.
  destruct (String.eqb (q_id x) (q_id q)); reflexivity.
Qed.

Lemma after_failed_batch_id :
  forall message batch q, q_id (after_failed_batch message batch q) = q_id q.
Proof.
  intros message batch q. unfold after_failed_batch.
  destruct (find _ (rev batch)); reflexivity.
Qed.

(** The store after the failures of a whole batch, whatever the batch and
    whatever the store holds. *)
Lemma failed_batch_store :
  forall this message batch d,
    sync_queue (fold_left (store_after_failure this message) batch d)
    = map (after_failed_batch message batch) (sync_queue d)
    /\ tasks (fold_left (store_after_failure this message) batch d)
       = map (fun row =>
                if exhausted_in this batch row then set_error row else row)
             (tasks d).
Proof.
  intros this message batch d.
  induction batch as [| x batch [IHq IHt]] using rev_ind.
  - cbn. rewrite !map_id. auto.
  - rewrite fold_left_app. cbn [fold_left].
    rewrite store_after_failure_queue, store_after_failure_tasks, IHq, IHt.
    split.
    + rewrite map_map. apply map_ext. intros q.
      rewrite after_failed_batch_snoc, after_failed_batch_id,
        (String.eqb_sym (q_id x) (q_id q)).
      destruct (String.eqb (q_id q) (q_id x)); [| reflexivity].
      unfold after_failed_batch.
      destruct (find _ (rev batch)); reflexivity.
    + assert (Hgoal :
        map (fun row =>
               if String.eqb (t_id row) (q_task_id x)
                  && (maxRetries this <? q_retry_count x + 1)
               then set_error row else row)
            (map (fun row =>
                    if exhausted_in this batch row
                    then set_error row else row) (tasks d))
        = map (fun row =>
                 if exhausted_in this (batch ++ [x]) row
                 then set_error row else row) (tasks d)).
      { rewrite map_map. apply map_ext. intros row.
        unfold exhausted_in. rewrite existsb_app. cbn [existsb].
        rewrite orb_false_r. fold (exhausted_in this batch row).
        assert (Hid : t_id (if exhausted_in this batch row
                            then set_error row else row) = t_id row).
        { destruct (exhausted_in this batch row); reflexivity. }
        rewrite Hid.
        destruct (exhausted_in this batch row),
                 (String.eqb (t_id row) (q_task_id x)
                  && (maxRetries this <? q_retry_count x + 1));
          reflexivity. }
      rewrite <- Hgoal.
      destruct (maxRetries this <? q_retry_count x + 1).
      * apply map_ext. intros row. rewrite andb_true_r. reflexivity.
      * symmetry. rewrite <- (map_id (map _ (tasks d))) at 2.
        apply map_ext. intros row. rewrite andb_false_r. reflexivity.
Qed.

(** An entry of a batch with unique ids, if it is still stored, ends with
    its own count plus one. *)
Lemma after_failed_batch_own :
  forall message batch q,
    NoDup (map q_id batch) -> In q batch ->
    after_failed_batch message batch q = record_failure message q.
Proof.
  intros message batch q Hnd Hin. unfold after_failed_batch.
  destruct (find (fun i => String.eqb (q_id i) (q_id q)) (rev batch))
    as [i |] eqn:Hf.
  - apply find_some in Hf as [Hi Heq]. apply String.eqb_eq in Heq.
    apply in_rev in Hi.
    rewrite (unique_id batch i q Hnd Hi Hin Heq). reflexivity.
  - apply in_rev in Hin. pose proof (find_none _ _ Hf q Hin) as H.
    cbn in H. rewrite String.eqb_refl in H. discriminate.
Qed.

(** C4, as the code has it.  When the send of a batch fails, every entry of
    the batch is counted as failed, and what is persisted goes by entry id:
    an entry of the batch that is still in the Mutation Log gets the retry
    count read at the start of the run plus one, and the failure message,
    whether or not the maximum is passed; an entry of the batch that is no
    longer in the log (its record was confirmed earlier in the run, which
    deleted all its entries) has nothing persisted; the other stored
    entries are left alone.  A record is set to [error] exactly when the
    new count of one of its entries in the batch exceeds the configured
    maximum, which is 3 unless configured otherwise.  So an entry that
    stays in the log and fails [maxRetries + 1] times has its record in
    [error], while the entry, with its count, and the record are still
    there to be read. *)
Theorem failed_send_counts_a_retry_for_stored_entries :
  forall (E : Env) (this : SyncService) (message : string),
    no_db_faults E ->
    (forall batch r,
        peer_sync E (S (tick (world r))) (apiUrl this ++ "/sync")
          {| items := batch; client_timestamp := clock E (tick (world r)) |}
        = Fail message ->
        exists r',
          sync_batch this batch E r = (Ok tt, r')
          /\ successCount r' = successCount r
          /\ failCount r' = failCount r + List.length batch
          /\ sync_queue (db (world r'))
             = map (after_failed_batch message batch)
                   (sync_queue (db (world r)))
          /\ tasks (db (world r'))
             = map (fun row => if exhausted_in this batch row
                               then set_error row else row)
                   (tasks (db (world r)))
          /\ (forall q, ~ In (q_id q) (map q_id batch) ->
                        after_failed_batch message batch q = q)
          /\ (NoDup (map q_id batch) ->
              forall q, In q batch ->
                        after_failed_batch message batch q
                        = record_failure message q)
          /\ (forall item,
                 In item batch ->
                 ~ In (q_id item) (map q_id (sync_queue (db (world r)))) ->
                 ~ In (q_id item) (map q_id (sync_queue (db (world r'))))))
    /\ (0 < batchSize this ->
        (forall n url req, peer_sync E n url req = Fail message) ->
        forall w entry,
          NoDup (map q_id (sync_queue (db w))) ->
          In entry (sync_queue (db w)) ->
          q_retry_count entry = 0 ->
          exists w',
            sync_times (maxRetries this + 1) this E w = (Ok tt, w')
            /\ In (exhausted_entry this message entry) (sync_queue (db w'))
            /\ (forall row, In row (tasks (db w')) ->
                            t_id row = q_task_id entry ->
                            t_sync_status row = error)
            /\ (forall row, In row (tasks (db w)) ->
                            t_id row = q_task_id entry ->
                            In (set_error row)
                               (sql_select_tasks_needing_sync (db w'))))
    /\ maxRetries default_service = 3.
Proof.
  intros E this message HE. split; [| split].
  - intros batch r Hfail.
    destruct (sync_batch_run E this batch r HE)
      as (r' & x & Hrun & _ & Hx & Hreply & Hs & Hf & _ & Hdb);
      [rewrite Hfail; discriminate |].
    rewrite Hfail in Hreply. rewrite Hreply in Hdb.
    unfold exchange_synced in Hs. unfold exchange_failed in Hf.
    rewrite Hreply in Hs, Hf. rewrite Hx in Hf.
    destruct (failed_batch_store this message batch (db (world r)))
      as [Hq Ht].
    exists r'. rewrite Hdb, Hq, Ht.
    split; [exact Hrun |]. split; [lia |]. split; [exact Hf |].
    split; [reflexivity |]. split; [reflexivity |].
    split; [| split].
    + intros q Hnot. unfold after_failed_batch.
      destruct (find (fun i => String.eqb (q_id i) (q_id q)) (rev batch))
        as [i |] eqn:Hfind; [| reflexivity].
      apply find_some in Hfind as [Hi Heq]. apply String.eqb_eq in Heq.
      exfalso. apply Hnot. rewrite <- Heq. apply in_map, in_rev, Hi.
    + intros Hnd q Hin. apply after_failed_batch_own; assumption.
    + intros item _ Hgone Hin. apply Hgone.
      rewrite map_map in Hin.
      erewrite map_ext in Hin; [exact Hin |].
      intros q. apply after_failed_batch_id.
  - intros Hbs Hdown w entry Hnd Hin Hzero.
    destruct (retries_run_out E this message HE Hbs Hdown
                (maxRetries this) w entry Hnd Hin)
      as (w' & Hrun & Hin' & Herr & Hrows); [lia |].
    exists w'. rewrite Nat.add_1_r.
    repeat split; try assumption.
    intros row Hrow Hid. unfold sql_select_tasks_needing_sync.
    apply filter_In. split; [apply Hrows; assumption | reflexivity].
  - reflexivity.
Qed.

Lemma failed_send_counts_a_retry_for_stored_entries_witness :
  no_db_faults E_peer_down
  /\ exists w',
       sync_times 4 default_service E_peer_down w_t1 = (Ok tt, w')
       /\ In (exhausted_entry default_service "Network Error" entry_create_t1)
             (sync_queue (db w'))
       /\ In (set_error task_t1) (sql_select_tasks_needing_sync (db w')).
Proof.
  split; [intro n; reflexivity |].
  destruct (failed_send_counts_a_retry_for_stored_entries E_peer_down
              default_service "Network Error" (fun n => eq_refl))
    as (_ & Hruns & _).
  destruct (Hruns (Nat.lt_0_succ 9) (fun n url req => eq_refl)
              w_t1 entry_create_t1)
    as (w' & Hrun & Hin & _ & Hrows).
  - cbn. constructor.
    + intros [H | []]. discriminate H.
    + constructor; [intros [] | constructor].
  - left. reflexivity.
  - reflexivity.
  - exists w'. split; [exact Hrun |]. split; [exact Hin |].
    apply Hrows; [left |]; reflexivity.
Defined.

(** C4, at a concrete input: one entry per batch; the peer confirms the
    batch holding the [create] of a record, which deletes the [update] of
    the same record from the log, and the send of the batch holding that
    [update] fails.  The entry is counted as failed, but it is no longer
    stored: no retry count and no message are persisted for it. *)
Lemma failed_send_after_confirmation_persists_nothing :
  exists result w',
    sync service_batch_1 E_confirm_then_fail w_t1 = (Ok result, w')
    /\ map (fun x => items (x_request x)) (net_log w')
       = [[entry_create_t1]; [entry_update_t1]]
    /\ map x_reply (skipn 1 (net_log w')) = [Fail "Network Error"]
    /\ failed_items result = 1
    /\ ~ In (record_failure "Network Error" entry_update_t1)
          (sync_queue (db w'))
    /\ sync_queue (db w') = [].
Proof.
  eexists. eexists. split; [vm_compute; reflexivity |].
  cbn. repeat split. intros [].
Qed.

(** *** Overlapping runs *)


(** *** The scenarios of the specification, run on the model *)

(** An empty Mutation Log: nothing is sent and the aggregate is empty. *)
Example sync_empty_log :
  sync default_service E_ok w_empty
  = (Ok {| success := true; synced_items := 0; failed_items := 0;
           errors := [] |},
     advance w_empty).
Proof. reflexivity. Qed.

(** [create] then [get]: the record is pending and has no server id; after
    a run against a confirming peer it is synced and carries the id the
    peer assigned. *)
Example create_get_sync_get :
  fst ((created <- createTask empty_partial ;;
        before <- getTask (t_id created) ;;
        sync default_service ;;
        after <- getTask (t_id created) ;;
        ret (option_map t_sync_status before, option_map t_server_id before,
             option_map t_sync_status after, option_map t_server_id after))
         E_ok w_empty)
  = Ok (Some pending, Some None, Some synced, Some (Some "srv-1")).
Proof. vm_compute. reflexivity. Qed.

(** A [create] and a later [update] of one record, both confirmed in one
    batch: the record is synced and the log is empty. *)
Example create_update_confirmed :
  map t_sync_status (tasks (db (snd (sync default_service E_ok w_t1))))
    = [synced]
  /\ sync_queue (db (snd (sync default_service E_ok w_t1))) = [].
Proof. vm_compute. split; reflexivity. Qed.

(** An unreachable peer: the probe answers [false]. *)
Example checkConnectivity_peer_down :
  fst (checkConnectivity default_service E_peer_down w_empty) = Ok false.
Proof. reflexivity. Qed.

(** With one entry per batch, the confirmation of the [create] removes the
    [update] of the same record from the store before its batch is sent;
    the [update] is still sent, from the list read at the start. *)
Example later_entry_sent_after_its_deletion :
  map (fun x => items (x_request x))
      (net_log (snd (sync service_batch_1 E_ok w_t1)))
  = [[entry_create_t1]; [entry_update_t1]].
Proof. vm_compute. reflexivity. Qed.

(** A batch size of 0 never advances the loop. *)
Example sync_batch_size_0 :
  fst (sync (constructor {| API_BASE_URL := None; SYNC_BATCH_SIZE := Some 0;
                            SYNC_MAX_RETRIES := None |}) E_ok w_t1)
  = OutOfFuel.
Proof. vm_compute. reflexivity. Qed.

(* ===================================================================== *)
(** ** Further properties of the Record Service                           *)
(* ===================================================================== *)

Lemma find_app_none :
  forall A (f : A -> bool) l l',
    find f l = None -> find f (l ++ l') = find f l'.
Proof.
  intros A f l l' H. induction l as [| x l IH]; [reflexivity |].
  cbn in *. destruct (f x); [discriminate | apply IH, H].
Qed.

Lemma createTask_run :
  forall E taskData w,
    no_db_faults E ->
    exists task w' entry,
      createTask taskData E w = (Ok task, w')
      /\ tasks (db w') = tasks (db w) ++ [task]
      /\ sync_queue (db w') = sync_queue (db w) ++ [entry]
      /\ t_title task = nullish (p_title taskData) "Untitled"
      /\ t_description task = nullish (p_description taskData) ""
      /\ t_completed task = nullish (p_completed taskData) false
      /\ t_server_id task = p_server_id taskData
      /\ t_is_deleted task = false
      /\ t_sync_status task = pending
      /\ t_updated_at task = t_created_at task
      /\ t_last_synced_at task = None
      /\ q_task_id entry = t_id task.
Proof.
  intros E taskData w HE.
  unfold createTask, bind, now, uuidv4.
  destruct (truthy_string (p_id taskData)) as [given |];
    unfold ret; rewrite !db_run_ok by exact HE;
    (eexists; eexists; eexists; split; [reflexivity |]);
    cbn; repeat split; reflexivity.
Qed.

(** X1. A record just created is pending, not deleted, never synced and
    stamped once, whatever the caller put in those fields; it is listed
    among the live records and among those needing sync; and when its id
    was not in the store, [getTask] gives it back. *)
Theorem createTask_then_getTask :
  forall (E : Env) (taskData : PartialTask) (w : World),
    no_db_faults E ->
    exists task w',
      createTask taskData E w = (Ok task, w')
      /\ t_is_deleted task = false
      /\ t_sync_status task = pending
      /\ t_updated_at task = t_created_at task
      /\ t_last_synced_at task = None
      /\ fst (getAllTasks E w')
         = Ok (map rowToTask (sql_select_tasks_not_deleted (db w)
                              ++ [task]))
      /\ (exists l, fst (getTasksNeedingSync E w') = Ok l
                    /\ In (rowToTask task) l)
      /\ (sql_select_task_where_id (t_id task) (db w) = None ->
          fst (getTask (t_id task) E w') = Ok (Some (rowToTask task))).
Proof.
  intros E taskData w HE.
  destruct (createTask_run E taskData w HE)
    as (task & w' & entry & Hrun & Ht & _ & _ & _ & _ & _ & Hdel & Hst
        & Hup & Hls & _).
  exists task, w'. repeat split; try assumption.
  - unfold getAllTasks, bind. rewrite db_query_ok by exact HE. cbn.
    unfold sql_select_tasks_not_deleted. rewrite Ht, filter_app. cbn.
    rewrite Hdel. reflexivity.
  - unfold getTasksNeedingSync, bind. rewrite db_query_ok by exact HE.
    eexists. split; [reflexivity |]. apply in_map.
    unfold sql_select_tasks_needing_sync. rewrite Ht.
    apply filter_In. split; [apply in_or_app; right; left; reflexivity |].
    rewrite Hst. reflexivity.
  - intros Hfresh. rewrite getTask_run, HE. cbn.
    unfold live_task, sql_select_task_where_id in *.
    rewrite Ht, find_app_none by exact Hfresh. cbn.
    rewrite String.eqb_refl, Hdel. reflexivity.
Qed.

Lemma createTask_then_getTask_witness :
  no_db_faults E_ok
  /\ exists task w',
       createTask empty_partial E_ok w_t1 = (Ok task, w')
       /\ t_sync_status task = pending
       /\ fst (getTask (t_id task) E_ok w') = Ok (Some (rowToTask task)).
Proof.
  split; [intro n; reflexivity |].
  destruct (createTask_then_getTask E_ok empty_partial w_t1
              (fun n => eq_refl))
    as (task & w' & Hrun & _ & Hst & _ & _ & _ & _ & Hget).
  exists task, w'. split; [exact Hrun |]. split; [exact Hst |].
  apply Hget. vm_compute in Hrun. inversion Hrun. reflexivity.
Defined.

Lemma live_task_row :
  forall id d existing,
    live_task id d = Some existing ->
    exists row,
      sql_select_task_where_id id d = Some row
      /\ t_id row = id
      /\ t_is_deleted row = false
      /\ existing = rowToTask row.
Proof.
  intros id d existing H. unfold live_task in H.
  destruct (sql_select_task_where_id id d) as [row |] eqn:Hf;
    [| discriminate].
  destruct (t_is_deleted row) eqn:Hd; [discriminate |].
  inversion H; subst. exists row. repeat split; auto.
  unfold sql_select_task_where_id in Hf. apply find_some in Hf as [_ Hf].
  apply String.eqb_eq, Hf.
Qed.

(** X2. After [updateTask] on a live record, [getTask] gives the merge of
    the given fields over the stored title, description and completed flag,
    pending and stamped with the time of the update; the id, the creation
    time, the server id and [last_synced_at] are those stored before, also
    when the given fields name others. *)
Theorem updateTask_then_getTask :
  forall (E : Env) (id : string) (updates : PartialTask) (w : World)
         (existing : Task),
    no_db_faults E ->
    live_task id (db w) = Some existing ->
    exists updated w',
      updateTask id updates E w = (Ok (Some updated), w')
      /\ t_id updated = nullish (p_id updates) (t_id existing)
      /\ fst (getTask id E w')
         = Ok (if nullish (p_is_deleted updates) false
               then None
               else Some {| t_id := t_id existing;
                            t_title :=
                              nullish (p_title updates) (t_title existing);
                            t_description :=
                              nullish (p_description updates)
                                (t_description existing);
                            t_completed :=
                              nullish (p_completed updates)
                                (t_completed existing);
                            t_created_at := t_created_at existing;
                            t_updated_at := clock E (S (tick w));
                            t_is_deleted := false;
                            t_sync_status := pending;
                            t_server_id := t_server_id existing;
                            t_last_synced_at :=
                              t_last_synced_at existing |}).
Proof.
  intros E id updates w existing HE Hlive.
  destruct (live_task_row id (db w) existing Hlive)
    as (row & Hfind & Hid & Hdel & Hex).
  unfold updateTask, bind. rewrite getTask_run, HE, Hlive.
  unfold now, uuidv4, ret. rewrite !db_run_ok by exact HE.
  eexists. eexists. split; [reflexivity |]. split; [reflexivity |].
  rewrite getTask_run, HE. cbn. f_equal.
  unfold live_task, sql_select_task_where_id. cbn.
  rewrite find_after_update by reflexivity.
  unfold sql_select_task_where_id in Hfind. rewrite Hfind. cbn.
  subst existing. cbn. rewrite Hdel.
  destruct (nullish (p_is_deleted updates) false); reflexivity.
Qed.

Lemma updateTask_then_getTask_witness :
  no_db_faults E_ok
  /\ live_task "t1" (db w_t1) = Some task_t1
  /\ exists updated w' stored,
       updateTask "t1" (q_data entry_update_t1) E_ok w_t1
         = (Ok (Some updated), w')
       /\ fst (getTask "t1" E_ok w') = Ok (Some stored)
       /\ t_title stored = "Buy oat milk".
Proof.
  split; [intro n; reflexivity |]. split; [reflexivity |].
  destruct (updateTask_then_getTask E_ok "t1" (q_data entry_update_t1) w_t1
              task_t1 (fun n => eq_refl) eq_refl)
    as (updated & w' & Hrun & _ & Hget).
  exists updated, w'. eexists. split; [exact Hrun |].
  split; [exact Hget | reflexivity].
Defined.

(** X3. On an id that is absent or soft-deleted, [updateTask] answers
    [null] and [deleteTask] answers [false]; neither writes to the store
    nor appends to the Mutation Log. *)
Theorem update_and_delete_of_missing_record :
  forall (E : Env) (id : string) (updates : PartialTask) (w : World),
    db_fault E (tick w) = None ->
    live_task id (db w) = None ->
    updateTask id updates E w = (Ok None, advance w)
    /\ deleteTask id E w = (Ok false, advance w)
    /\ db (advance w) = db w.
Proof.
  intros E id updates w HE Hnone.
  unfold updateTask, deleteTask, bind.
  rewrite getTask_run, HE, Hnone. repeat split.
Qed.

Lemma update_and_delete_of_missing_record_witness :
  db_fault E_ok (tick w_t1) = None
  /\ live_task "t2" (db w_t1) = None
  /\ updateTask "t2" mark_deleted E_ok w_t1 = (Ok None, advance w_t1)
  /\ deleteTask "t2" E_ok w_t1 = (Ok false, advance w_t1).
Proof.
  split; [reflexivity |]. split; [reflexivity |].
  destruct (update_and_delete_of_missing_record E_ok "t2" mark_deleted w_t1
              eq_refl eq_refl) as (Hu & Hd & _).
  split; assumption.
Defined.

(** X4. [deleteTask] on a live record is a soft delete: the row stays in
    the store, flagged and pending, and is still listed among the records
    needing sync, while [getTask] and [getAllTasks] no longer show the id;
    one [delete] entry is appended, and a second [deleteTask] answers
    [false] and appends nothing. *)
Theorem deleteTask_soft_deletes_once :
  forall (E : Env) (id : string) (w : World) (existing : Task),
    no_db_faults E ->
    live_task id (db w) = Some existing ->
    exists w' entry,
      deleteTask id E w = (Ok true, w')
      /\ sync_queue (db w') = sync_queue (db w) ++ [entry]
      /\ q_task_id entry = id
      /\ q_operation entry = op_delete
      /\ q_data entry = empty_partial
      /\ List.length (tasks (db w')) = List.length (tasks (db w))
      /\ (forall row, In row (tasks (db w')) -> t_id row = id ->
                      t_is_deleted row = true /\ t_sync_status row = pending)
      /\ (exists row, In row (sql_select_tasks_needing_sync (db w'))
                      /\ t_id row = id)
      /\ (forall row, In row (sql_select_tasks_not_deleted (db w')) ->
                      t_id row <> id)
      /\ fst (getTask id E w') = Ok None
      /\ deleteTask id E w' = (Ok false, advance w').
Proof.
  intros E id w existing HE Hlive.
  destruct (live_task_row id (db w) existing Hlive)
    as (row0 & Hfind & Hid & Hdel & Hex).
  assert (Hrows : forall row,
             In row (map (fun r => if String.eqb (t_id r) id
                                   then set_deleted (clock E (S (tick w))) r
                                   else r) (tasks (db w))) ->
             t_id row = id ->
             t_is_deleted row = true /\ t_sync_status row = pending).
  { intros row Hin Hrid. apply in_map_iff in Hin as (r0 & Hr0 & _).
    destruct (String.eqb (t_id r0) id) eqn:Heq; subst row.
    - split; reflexivity.
    - apply String.eqb_neq in Heq. contradiction. }
  assert (Hgone : live_task id
            (sql_update_tasks_where_id id
               (set_deleted (clock E (S (tick w)))) (db w)) = None).
  { unfold live_task, sql_select_task_where_id. cbn.
    rewrite find_after_update by reflexivity.
    unfold sql_select_task_where_id in Hfind. rewrite Hfind. reflexivity. }
  unfold deleteTask at 1, bind. rewrite getTask_run, HE, Hlive.
  unfold now, uuidv4, ret. rewrite !db_run_ok by exact HE.
  eexists. eexists. split; [reflexivity |]. cbn.
  repeat split; try reflexivity.
  - apply length_map.
  - apply Hrows; assumption.
  - apply Hrows; assumption.
  - exists (set_deleted (clock E (S (tick w))) row0). split; [| exact Hid].
    unfold sql_select_tasks_needing_sync. apply filter_In. cbn.
    split; [| reflexivity].
    apply in_map_iff. exists row0. rewrite Hid, String.eqb_refl.
    split; [reflexivity |].
    unfold sql_select_task_where_id in Hfind.
    apply find_some in Hfind. apply Hfind.
  - intros row Hin Hrid. unfold sql_select_tasks_not_deleted in Hin.
    apply filter_In in Hin as [Hin Hlive']. cbn in Hin.
    destruct (Hrows row Hin Hrid) as [Hd _]. rewrite Hd in Hlive'.
    discriminate.
  - rewrite getTask_run, HE. cbn.
    unfold live_task in Hgone |- *. cbn in Hgone |- *. rewrite Hgone.
    reflexivity.
  - unfold deleteTask, bind. rewrite getTask_run, HE. cbn.
    unfold live_task in Hgone |- *. cbn in Hgone |- *. rewrite Hgone.
    reflexivity.
Qed.

Lemma deleteTask_soft_deletes_once_witness :
  no_db_faults E_ok
  /\ live_task "t1" (db w_t1) = Some task_t1
  /\ exists w' entry,
       deleteTask "t1" E_ok w_t1 = (Ok true, w')
       /\ sync_queue (db w') = sync_queue (db w_t1) ++ [entry]
       /\ fst (getTask "t1" E_ok w') = Ok None
       /\ deleteTask "t1" E_ok w' = (Ok false, advance w').
Proof.
  split; [intro n; reflexivity |]. split; [reflexivity |].
  destruct (deleteTask_soft_deletes_once E_ok "t1" w_t1 task_t1
              (fun n => eq_refl) eq_refl)
    as (w' & entry & Hrun & Hq & _ & _ & _ & _ & _ & _ & _ & Hget & Hagain).
  exists w', entry. repeat split; assumption.
Defined.

(* ===================================================================== *)
(** ** Frames: what holds on every outcome, in every environment          *)
(* ===================================================================== *)

Section Frames.

Context {S : Type} (store : S -> Db) (R : Db -> Db -> Prop).
Hypothesis R_refl : forall d, R d d.
Hypothesis R_trans : forall a b c, R a b -> R b c -> R a c.

Lemma keeps_ret : forall A (a : A), keeps store R (ret a).
Proof. intros A a E s. apply R_refl. Qed.

Lemma keeps_out_of_fuel : forall A, keeps store R (@out_of_fuel S A).
Proof. intros A E s. apply R_refl. Qed.

Lemma keeps_bind :
  forall A B (m : M S A) (k : A -> M S B),
    keeps store R m -> (forall a, keeps store R (k a)) ->
    keeps store R (bind m k).
Proof.
  intros A B m k Hm Hk E s. unfold bind.
  specialize (Hm E s). destruct (m E s) as [[a | e |] s1]; cbn in *.
  - eapply R_trans; [exact Hm | apply Hk].
  - exact Hm.
  - exact Hm.
Qed.

Lemma keeps_try_catch :
  forall A (body : M S A) (handler : string -> M S A),
    keeps store R body -> (forall e, keeps store R (handler e)) ->
    keeps store R (try_catch body handler).
Proof.
  intros A body handler Hb Hh E s. unfold try_catch.
  specialize (Hb E s). destruct (body E s) as [[a | e |] s1]; cbn in *.
  - exact Hb.
  - eapply R_trans; [exact Hb | apply Hh].
  - exact Hb.
Qed.

Lemma keeps_for_each :
  forall A (xs : list A) (body : A -> M S unit),
    (forall x, keeps store R (body x)) ->
    keeps store R (for_each xs body).
Proof.
  intros A xs body Hb. induction xs as [| x xs IH]; cbn [for_each].
  - apply keeps_ret.
  - apply keeps_bind; [apply Hb | intros _; exact IH].
Qed.

End Frames.

Section FramesOfTheWorld.

Context (R : Db -> Db -> Prop).
Hypothesis R_refl : forall d, R d d.

Lemma keeps_now : keeps db R now.
Proof. intros E w. apply R_refl. Qed.

Lemma keeps_uuidv4 : keeps db R uuidv4.
Proof. intros E w. apply R_refl. Qed.

Lemma keeps_db_query : forall A (q : Db -> A), keeps db R (db_query q).
Proof.
  intros A q E w. unfold db_query.
  destruct (db_fault E (tick w)); apply R_refl.
Qed.

Lemma keeps_db_run :
  forall stmt, (forall ts d, R d (stmt ts d)) -> keeps db R (db_run stmt).
Proof.
  intros stmt H E w. unfold db_run.
  destruct (db_fault E (tick w)); cbn; [apply R_refl | apply H].
Qed.

Lemma keeps_axios_post :
  forall url request, keeps db R (axios_post url request).
Proof.
  intros url request E w. unfold axios_post.
  destruct (peer_sync E (tick w) url request); apply R_refl.
Qed.

Lemma keeps_axios_get : forall url timeout, keeps db R (axios_get url timeout).
Proof.
  intros url timeout E w. unfold axios_get.
  destruct (peer_health E (tick w) url) as [st lat | | e];
    [destruct ((200 <=? st) && (st <? 300) && (lat <? timeout)) |..];
    apply R_refl.
Qed.

Lemma keeps_in_world :
  forall A (m : M World A), keeps db R m -> keeps run_store R (in_world m).
Proof.
  intros A m H E r. unfold in_world. specialize (H E (world r)).
  destruct (m E (world r)) as [res w']. exact H.
Qed.

Lemma keeps_with_locals :
  forall A (body : M Run A),
    keeps run_store R body -> keeps db R (with_locals body).
Proof.
  intros A body H E w. unfold with_locals.
  specialize (H E (mkRun w 0 0 [])).
  destruct (body E (mkRun w 0 0 [])) as [res r]. exact H.
Qed.

Lemma keeps_incr_successCount : keeps run_store R incr_successCount.
Proof. intros E r. apply R_refl. Qed.

Lemma keeps_incr_failCount : keeps run_store R incr_failCount.
Proof. intros E r. apply R_refl. Qed.

Lemma keeps_errors_push : forall e, keeps run_store R (errors_push e).
Proof. intros e E r. apply R_refl. Qed.

Lemma keeps_get_run : keeps run_store R get_run.
Proof. intros E r. apply R_refl. Qed.

End FramesOfTheWorld.

(** One step through a computation built from the primitives. *)
Ltac keep_step Hrefl Htrans :=
  first
    [ apply (keeps_ret _ _ Hrefl)
    | apply (keeps_out_of_fuel _ _ Hrefl)
    | apply (keeps_now _ Hrefl)
    | apply (keeps_uuidv4 _ Hrefl)
    | apply (keeps_db_query _ Hrefl)
    | apply (keeps_axios_post _ Hrefl)
    | apply (keeps_axios_get _ Hrefl)
    | apply (keeps_incr_successCount _ Hrefl)
    | apply (keeps_incr_failCount _ Hrefl)
    | apply (keeps_errors_push _ Hrefl)
    | apply (keeps_get_run _ Hrefl)
    | apply keeps_in_world
    | apply keeps_with_locals
    | apply (keeps_bind _ _ Htrans); [| intros ?]
    | apply (keeps_try_catch _ _ Htrans); [| intros ?]
    | apply (keeps_for_each _ _ Hrefl Htrans); intros ?
    | apply (keeps_db_run _ Hrefl); intros ? ? ].

(** *** The Record Service only adds *)

Lemma Forall2_same :
  forall A (R : A -> A -> Prop) l, (forall x, R x x) -> Forall2 R l l.
Proof. intros A R l H. induction l; constructor; auto. Qed.

Lemma Forall2_map_r :
  forall A (R : A -> A -> Prop) (f : A -> A) l,
    (forall x, R x (f x)) -> Forall2 R l (map f l).
Proof. intros A R f l H. induction l; cbn; constructor; auto. Qed.

Lemma Forall2_chain :
  forall A (R : A -> A -> Prop),
    (forall a b c, R a b -> R b c -> R a c) ->
    forall l1 l2 l3, Forall2 R l1 l2 -> Forall2 R l2 l3 -> Forall2 R l1 l3.
Proof.
  intros A R Ht l1 l2 l3 H12. revert l3.
  induction H12 as [| x y l1 l2 Hxy H12 IH]; intros l3 H23;
    inversion H23; subst; constructor; eauto.
Qed.

Lemma same_sync_columns_refl : forall a, same_sync_columns a a.
Proof. intros a. repeat split. Qed.

Lemma same_sync_columns_trans :
  forall a b c,
    same_sync_columns a b -> same_sync_columns b c -> same_sync_columns a c.
Proof.
  unfold same_sync_columns. intros a b c (H1 & H2 & H3 & H4) (K1 & K2 & K3 & K4).
  repeat split; congruence.
Qed.

Lemma record_service_frame_refl : forall d, record_service_frame d d.
Proof.
  intros d. split.
  - exists (tasks d), []. rewrite app_nil_r. split; [reflexivity |].
    apply Forall2_same, same_sync_columns_refl.
  - exists []. rewrite app_nil_r. reflexivity.
Qed.

Lemma record_service_frame_trans :
  forall a b c,
    record_service_frame a b -> record_service_frame b c ->
    record_service_frame a c.
Proof.
  intros a b c [(k1 & a1 & Hb & Hk1) (p1 & Hq1)] [(k2 & a2 & Hc & Hk2) (p2 & Hq2)].
  split.
  - rewrite Hb in Hk2. apply Forall2_app_inv_l in Hk2
      as (k2a & k2b & Hka & Hkb & Heq).
    exists k2a, (k2b ++ a2). split.
    + rewrite Hc, Heq, app_assoc. reflexivity.
    + eapply Forall2_chain;
        [apply same_sync_columns_trans | exact Hk1 | exact Hka].
  - exists (p1 ++ p2). rewrite Hq2, Hq1, app_assoc. reflexivity.
Qed.

Lemma record_service_frame_rows :
  forall id set d,
    (forall row, same_sync_columns row (set row)) ->
    record_service_frame d (sql_update_tasks_where_id id set d).
Proof.
  intros id set d H. split.
  - eexists. exists []. rewrite app_nil_r. split; [reflexivity |].
    apply Forall2_map_r. intros row.
    destruct (String.eqb (t_id row) id);
      [apply H | apply same_sync_columns_refl].
  - exists []. cbn. rewrite app_nil_r. reflexivity.
Qed.

Lemma record_service_frame_append :
  forall id task_id op data ts d,
    record_service_frame d (sql_insert_sync_queue id task_id op data ts d).
Proof.
  intros. split.
  - exists (tasks d), []. cbn. rewrite app_nil_r. split; [reflexivity |].
    apply Forall2_same, same_sync_columns_refl.
  - eexists. reflexivity.
Qed.

Ltac keep_rows :=
  repeat keep_step record_service_frame_refl record_service_frame_trans.

Lemma getTask_keeps :
  forall R, (forall d, R d d) -> (forall a b c, R a b -> R b c -> R a c) ->
    forall id, keeps db R (getTask id).
Proof.
  intros R Hr Ht id. unfold getTask.
  apply (keeps_bind _ _ Ht); [apply (keeps_db_query _ Hr) |].
  intros [row |]; [destruct (t_is_deleted row) |]; apply (keeps_ret _ _ Hr).
Qed.

Lemma createTask_keeps_rows :
  forall taskData, keeps db record_service_frame (createTask taskData).
Proof.
  intros taskData. unfold createTask.
  destruct (truthy_string (p_id taskData)); keep_rows.
  all: try apply record_service_frame_append.
  all: split;
    [ eexists; eexists; split;
      [reflexivity | apply Forall2_same, same_sync_columns_refl]
    | exists []; cbn; rewrite app_nil_r; reflexivity ].
Qed.

Lemma updateTask_keeps_rows :
  forall id updates, keeps db record_service_frame (updateTask id updates).
Proof.
  intros id updates. unfold updateTask.
  apply (keeps_bind _ _ record_service_frame_trans).
  - apply getTask_keeps;
      [apply record_service_frame_refl | apply record_service_frame_trans].
  - intros [existing |]; keep_rows.
    + apply record_service_frame_rows. intros row. repeat split.
    + apply record_service_frame_append.
Qed.

Lemma deleteTask_keeps_rows :
  forall id, keeps db record_service_frame (deleteTask id).
Proof.
  intros id. unfold deleteTask.
  apply (keeps_bind _ _ record_service_frame_trans).
  - apply getTask_keeps;
      [apply record_service_frame_refl | apply record_service_frame_trans].
  - intros [existing |]; keep_rows.
    + apply record_service_frame_rows. intros row. repeat split.
    + apply record_service_frame_append.
Qed.

(** X5. Whatever the sequence of calls of the Record Service and whatever
    the environment, storage faults included: no row of [tasks] is removed
    or moved, every row keeps its id, creation time, server id and
    [last_synced_at], and the Mutation Log only grows at its end; the same
    holds of [addToSyncQueue]. *)
Theorem record_service_only_adds :
  forall (E : Env) (w : World),
    (forall ms, record_service_frame (db w)
                  (db (snd (apply_mutations ms E w))))
    /\ (forall taskId operation data,
          record_service_frame (db w)
            (db (snd (addToSyncQueue taskId operation data E w)))).
Proof.
  intros E w. split.
  - intros ms. revert E w.
    change (keeps db record_service_frame (apply_mutations ms)).
    unfold apply_mutations.
    apply (keeps_for_each _ _ record_service_frame_refl
             record_service_frame_trans).
    intros [taskData | id updates | id]; unfold apply_mutation;
      (apply (keeps_bind _ _ record_service_frame_trans);
       [| intros _; apply (keeps_ret _ _ record_service_frame_refl)]).
    + apply createTask_keeps_rows.
    + apply updateTask_keeps_rows.
    + apply deleteTask_keeps_rows.
  - intros taskId operation data. revert E w.
    change (keeps db record_service_frame
              (addToSyncQueue taskId operation data)).
    unfold addToSyncQueue. keep_rows. split.
    + exists (tasks d), []. cbn. rewrite app_nil_r. split; [reflexivity |].
      apply Forall2_same, same_sync_columns_refl.
    + eexists. reflexivity.
Qed.

(** *** The orchestrator only marks and removes *)

Lemma survivors_same :
  forall A (R : A -> A -> Prop) l, (forall x, R x x) -> survivors R l l.
Proof. intros A R l H. induction l; constructor; auto. Qed.

Lemma survivors_chain :
  forall A (R : A -> A -> Prop),
    (forall a b c, R a b -> R b c -> R a c) ->
    forall l1 l2 l3,
      survivors R l1 l2 -> survivors R l2 l3 -> survivors R l1 l3.
Proof.
  intros A R Ht l1 l2 l3 H12. revert l3.
  induction H12 as [| x x' l l' Hx H12 IH | x l l' H12 IH]; intros l3 H23.
  - exact H23.
  - inversion H23; subst.
    + apply survivors_keep; eauto.
    + apply survivors_drop; auto.
  - apply survivors_drop; auto.
Qed.

Lemma survivors_filter :
  forall A (R : A -> A -> Prop) (f : A -> bool) l,
    (forall x, R x x) -> survivors R l (filter f l).
Proof.
  intros A R f l H. induction l as [| x l IH]; cbn; [constructor |].
  destruct (f x); [apply survivors_keep | apply survivors_drop]; auto.
Qed.

Lemma survivors_map :
  forall A (R : A -> A -> Prop) (g : A -> A) l,
    (forall x, R x (g x)) -> survivors R l (map g l).
Proof.
  intros A R g l H. induction l as [| x l IH]; cbn; constructor; auto.
Qed.

Lemma same_record_refl : forall a, same_record a a.
Proof. intros a. repeat split; auto. Qed.

Lemma same_record_trans :
  forall a b c, same_record a b -> same_record b c -> same_record a c.
Proof.
  unfold same_record.
  intros a b c (H1 & H2 & H3 & H4 & H5 & H6 & H7 & H8)
    (K1 & K2 & K3 & K4 & K5 & K6 & K7 & K8).
  repeat split; try congruence. auto.
Qed.

Lemma same_entry_refl : forall a, same_entry a a.
Proof. intros a. repeat split. Qed.

Lemma same_entry_trans :
  forall a b c, same_entry a b -> same_entry b c -> same_entry a c.
Proof.
  unfold same_entry.
  intros a b c (H1 & H2 & H3 & H4 & H5) (K1 & K2 & K3 & K4 & K5).
  repeat split; congruence.
Qed.

Lemma sync_frame_refl : forall d, sync_frame d d.
Proof.
  intros d. split.
  - apply Forall2_same, same_record_refl.
  - apply survivors_same, same_entry_refl.
Qed.

Lemma sync_frame_trans :
  forall a b c, sync_frame a b -> sync_frame b c -> sync_frame a c.
Proof.
  intros a b c [H1 H2] [K1 K2]. split.
  - eapply Forall2_chain; [apply same_record_trans | eassumption..].
  - eapply survivors_chain; [apply same_entry_trans | eassumption..].
Qed.

Lemma sync_frame_mark :
  forall id set d,
    (forall row, same_record row (set row)) ->
    sync_frame d (sql_update_tasks_where_id id set d).
Proof.
  intros id set d H. split; cbn.
  - apply Forall2_map_r. intros row.
    destruct (String.eqb (t_id row) id);
      [apply H | apply same_record_refl].
  - apply survivors_same, same_entry_refl.
Qed.

Lemma same_record_set_sync_status :
  forall st server_id ts row,
    same_record row (set_sync_status st server_id ts row).
Proof.
  intros st server_id ts row. repeat split. cbn.
  destruct server_id; [discriminate | auto].
Qed.

Lemma sync_frame_delete :
  forall id d, sync_frame d (sql_delete_sync_queue_where_task_id id d).
Proof.
  intros id d. split; cbn.
  - apply Forall2_same, same_record_refl.
  - apply survivors_filter, same_entry_refl.
Qed.

Lemma sync_frame_retry :
  forall id n message d,
    sync_frame d (sql_update_sync_queue_where_id id n message d).
Proof.
  intros id n message d. split; cbn.
  - apply Forall2_same, same_record_refl.
  - apply survivors_map. intros q.
    destruct (String.eqb (q_id q) id); repeat split.
Qed.

Ltac keep_frame := repeat keep_step sync_frame_refl sync_frame_trans.

Lemma updateSyncStatus_keeps_frame :
  forall taskId st serverData,
    keeps db sync_frame (updateSyncStatus taskId st serverData).
Proof.
  intros taskId st serverData. unfold updateSyncStatus.
  apply (keeps_bind _ _ sync_frame_trans); [keep_frame |]. intros ts.
  apply (keeps_bind _ _ sync_frame_trans).
  - apply (keeps_db_run _ sync_frame_refl). intros _ d.
    apply sync_frame_mark, same_record_set_sync_status.
  - intros _. destruct (SyncStatus_eqb st synced).
    + apply (keeps_db_run _ sync_frame_refl). intros _ d.
      apply sync_frame_delete.
    + keep_frame.
Qed.

Lemma handleSyncError_keeps_frame :
  forall this item message,
    keeps db sync_frame (handleSyncError this item message).
Proof.
  intros this item message. unfold handleSyncError.
  destruct (maxRetries this <? q_retry_count item + 1).
  - apply (keeps_bind _ _ sync_frame_trans).
    + apply (keeps_db_run _ sync_frame_refl). intros _ d.
      apply sync_frame_mark. intros row. repeat split; auto.
    + intros _. apply (keeps_db_run _ sync_frame_refl). intros _ d.
      apply sync_frame_retry.
  - apply (keeps_db_run _ sync_frame_refl). intros _ d.
    apply sync_frame_retry.
Qed.

Ltac keep_frame_calls :=
  repeat first
    [ apply updateSyncStatus_keeps_frame
    | apply handleSyncError_keeps_frame
    | keep_step sync_frame_refl sync_frame_trans ].

Lemma sync_batch_keeps_frame :
  forall this batch, keeps run_store sync_frame (sync_batch this batch).
Proof.
  intros this batch. unfold sync_batch.
  apply (keeps_try_catch _ _ sync_frame_trans).
  - apply (keeps_bind _ _ sync_frame_trans).
    + apply keeps_in_world. unfold processBatch. keep_frame.
    + intros response.
      apply (keeps_for_each _ _ sync_frame_refl sync_frame_trans).
      intros item. unfold on_processed_item.
      destruct (String.eqb (status item) "success");
        [| destruct (String.eqb (status item) "conflict"
                     && is_some (resolved_data item))];
        keep_frame_calls.
  - intros message.
    apply (keeps_for_each _ _ sync_frame_refl sync_frame_trans).
    intros item. unfold on_failed_item. keep_frame_calls.
Qed.

Lemma sync_keeps_frame : forall this, keeps db sync_frame (sync this).
Proof.
  intros this. unfold sync.
  apply (keeps_bind _ _ sync_frame_trans); [keep_frame |].
  intros queueItems. unfold sync_drain. apply keeps_with_locals.
  apply (keeps_bind _ _ sync_frame_trans); [| intros _; keep_frame].
  generalize 0. generalize (List.length queueItems).
  intros fuel. induction fuel as [| fuel IH]; intros i; cbn [sync_loop];
    destruct (i <? List.length queueItems).
  - apply (keeps_out_of_fuel _ _ sync_frame_refl).
  - apply (keeps_ret _ _ sync_frame_refl).
  - apply (keeps_bind _ _ sync_frame_trans);
      [apply sync_batch_keeps_frame | intros _; apply IH].
  - apply (keeps_ret _ _ sync_frame_refl).
Qed.

(** X6. In every environment, storage faults and any answer of the peer
    included, a run of [sync()] leaves the rows of [tasks] in place and
    changes nothing of a record but its sync status, its server id and
    [last_synced_at]: the title, description, completed flag, timestamps
    and the soft-delete flag are never touched, whatever resolved data the
    peer sends, and a server id once stored is never removed. *)
Theorem sync_leaves_record_fields :
  forall (E : Env) (this : SyncService) (w : World),
    Forall2 same_record (tasks (db w)) (tasks (db (snd (sync this E w)))).
Proof. intros E this w. apply (sync_keeps_frame this E w). Qed.

(** X7. In every environment a run of [sync()] adds no entry to the
    Mutation Log and reorders none: the entries left are, in order, entries
    that were there, with the same id, record id, operation, payload and
    creation time. *)
Theorem sync_adds_no_entry :
  forall (E : Env) (this : SyncService) (w : World),
    survivors same_entry (sync_queue (db w))
      (sync_queue (db (snd (sync this E w)))).
Proof. intros E this w. apply (sync_keeps_frame this E w). Qed.

(* ===================================================================== *)
(** ** Termination of a run                                               *)
(* ===================================================================== *)

Section Ends.

Context {S : Type}.

Lemma ends_ret : forall A (a : A), ends (@ret S A a).
Proof. intros A a E s _. discriminate. Qed.

Lemma ends_bind :
  forall A B (m : M S A) (k : A -> M S B),
    ends m -> (forall a, ends (k a)) -> ends (bind m k).
Proof.
  intros A B m k Hm Hk E s HA. unfold bind. specialize (Hm E s HA).
  destruct (m E s) as [[a | e |] s1]; cbn in *.
  - apply Hk, HA.
  - discriminate.
  - contradiction Hm. reflexivity.
Qed.

Lemma ends_try_catch :
  forall A (body : M S A) (handler : string -> M S A),
    ends body -> (forall e, ends (handler e)) ->
    ends (try_catch body handler).
Proof.
  intros A body handler Hb Hh E s HA. unfold try_catch.
  specialize (Hb E s HA).
  destruct (body E s) as [[a | e |] s1]; cbn in *.
  - discriminate.
  - apply Hh, HA.
  - exact Hb.
Qed.

Lemma ends_for_each :
  forall A (xs : list A) (body : A -> M S unit),
    (forall x, ends (body x)) -> ends (for_each xs body).
Proof.
  intros A xs body Hb. induction xs as [| x xs IH]; cbn [for_each].
  - apply ends_ret.
  - apply ends_bind; [apply Hb | intros _; exact IH].
Qed.

End Ends.

Lemma ends_now : ends now.
Proof. intros E w _. discriminate. Qed.

Lemma ends_uuidv4 : ends uuidv4.
Proof. intros E w _. discriminate. Qed.

Lemma ends_db_run : forall stmt, ends (db_run stmt).
Proof.
  intros stmt E w _. unfold db_run.
  destruct (db_fault E (tick w)); discriminate.
Qed.

Lemma ends_db_query : forall A (q : Db -> A), ends (db_query q).
Proof.
  intros A q E w _. unfold db_query.
  destruct (db_fault E (tick w)); discriminate.
Qed.

(** The one call that may stay pending. *)
Lemma ends_axios_post : forall url request, ends (axios_post url request).
Proof.
  intros url request E w HA. unfold axios_post.
  specialize (HA (tick w) url request).
  destruct (peer_sync E (tick w) url request);
    [discriminate | discriminate | contradiction].
Qed.

Lemma ends_axios_get : forall url timeout, ends (axios_get url timeout).
Proof.
  intros url timeout E w _. unfold axios_get.
  destruct (peer_health E (tick w) url) as [st lat | | e];
    [destruct ((200 <=? st) && (st <? 300) && (lat <? timeout)) |..];
    discriminate.
Qed.

Lemma ends_in_world : forall A (m : M World A), ends m -> ends (in_world m).
Proof.
  intros A m H E r HA. unfold in_world. specialize (H E (world r) HA).
  destruct (m E (world r)) as [res w']. exact H.
Qed.

Lemma ends_with_locals :
  forall A (body : M Run A), ends body -> ends (with_locals body).
Proof.
  intros A body H E w HA. unfold with_locals.
  specialize (H E (mkRun w 0 0 []) HA).
  destruct (body E (mkRun w 0 0 [])) as [res r]. exact H.
Qed.

Lemma ends_updateSyncStatus :
  forall taskId st serverData, ends (updateSyncStatus taskId st serverData).
Proof.
  intros taskId st serverData. unfold updateSyncStatus.
  apply ends_bind; [apply ends_now | intros ts].
  apply ends_bind; [apply ends_db_run | intros _].
  destruct (SyncStatus_eqb st synced); [apply ends_db_run | apply ends_ret].
Qed.

Lemma ends_handleSyncError :
  forall this item message, ends (handleSyncError this item message).
Proof.
  intros this item message. unfold handleSyncError.
  destruct (maxRetries this <? q_retry_count item + 1).
  - apply ends_bind; [apply ends_db_run | intros _; apply ends_db_run].
  - apply ends_db_run.
Qed.

Lemma ends_on_processed_item : forall item, ends (on_processed_item item).
Proof.
  intros item. unfold on_processed_item.
  assert (Hyes : ends (incr_successCount ;;
                       in_world (updateSyncStatus (client_id item) synced
                                   (Some (serverData_of item))))).
  { apply ends_bind; [intros E r _; discriminate | intros _].
    apply ends_in_world, ends_updateSyncStatus. }
  destruct (String.eqb (status item) "success"); [exact Hyes |].
  destruct (String.eqb (status item) "conflict"
            && is_some (resolved_data item)); [exact Hyes |].
  apply ends_bind; [intros E r _; discriminate | intros _].
  apply ends_bind; [apply ends_in_world, ends_now | intros ts].
  apply ends_bind; [intros E r _; discriminate | intros _].
  apply ends_in_world, ends_updateSyncStatus.
Qed.

Lemma ends_on_failed_item :
  forall this message item, ends (on_failed_item this message item).
Proof.
  intros this message item. unfold on_failed_item.
  apply ends_bind; [intros E r _; discriminate | intros _].
  apply ends_bind; [apply ends_in_world, ends_now | intros ts].
  apply ends_bind; [intros E r _; discriminate | intros _].
  apply ends_in_world, ends_handleSyncError.
Qed.

Lemma ends_sync_batch : forall this batch, ends (sync_batch this batch).
Proof.
  intros this batch. unfold sync_batch. apply ends_try_catch.
  - apply ends_bind.
    + apply ends_in_world. unfold processBatch.
      apply ends_bind; [apply ends_now | intros ts; apply ends_axios_post].
    + intros response. apply ends_for_each, ends_on_processed_item.
  - intros message. apply ends_for_each, ends_on_failed_item.
Qed.

Lemma ends_sync_loop :
  forall this queueItems,
    0 < batchSize this ->
    forall fuel i,
      List.length queueItems - i <= fuel ->
      ends (sync_loop fuel this queueItems i).
Proof.
  intros this queueItems Hbs.
  induction fuel as [| fuel IH]; intros i Hfuel; cbn [sync_loop];
    destruct (Nat.ltb_spec i (List.length queueItems)) as [Hlt | Hge];
    try apply ends_ret.
  - lia.
  - apply ends_bind; [apply ends_sync_batch | intros _].
    apply IH. lia.
Qed.

Lemma ends_sync : forall this, 0 < batchSize this -> ends (sync this).
Proof.
  intros this Hbs. unfold sync.
  apply ends_bind; [apply ends_db_query | intros queueItems].
  unfold sync_drain. apply ends_with_locals.
  apply ends_bind; [apply ends_sync_loop; [exact Hbs | lia] | intros _].
  apply ends_bind; [intros E r _; discriminate | intros r; apply ends_ret].
Qed.

(** The send of a batch that the peer never answers does not come back,
    and leaves the store as it was. *)
Lemma sync_batch_unanswered :
  forall E this batch r,
    peer_sync E (S (tick (world r))) (apiUrl this ++ "/sync")
      {| items := batch; client_timestamp := clock E (tick (world r)) |}
    = NoAnswer ->
    fst (sync_batch this batch E r) = OutOfFuel
    /\ db (world (snd (sync_batch this batch E r))) = db (world r).
Proof.
  intros E this batch r Hsilent.
  unfold sync_batch, try_catch, bind, in_world.
  rewrite processBatch_run, Hsilent. split; reflexivity.
Qed.

Lemma sync_unanswered :
  forall E this w,
    db_fault E (tick w) = None ->
    sync_queue (db w) <> [] ->
    peer_sync E (S (S (tick w))) (apiUrl this ++ "/sync")
      {| items := slice 0 (batchSize this)
                    (sql_select_sync_queue_ordered (db w));
         client_timestamp := clock E (S (tick w)) |}
    = NoAnswer ->
    fst (sync this E w) = OutOfFuel /\ db (snd (sync this E w)) = db w.
Proof.
  intros E this w HE Hne Hsilent.
  set (queueItems := sql_select_sync_queue_ordered (db w)) in *.
  assert (Hlen : 0 < List.length queueItems).
  { unfold queueItems, sql_select_sync_queue_ordered.
    rewrite (Permutation_length (order_by_created_at_perm _)).
    destruct (sync_queue (db w)); [contradiction | cbn; lia]. }
  unfold sync, bind, db_query. rewrite HE. fold queueItems.
  unfold sync_drain, with_locals, bind.
  destruct (List.length queueItems) as [| fuel] eqn:Hfuel; [lia |].
  cbn [sync_loop]. rewrite Hfuel. cbn [Nat.ltb Nat.leb].
  unfold bind.
  destruct (sync_batch_unanswered E this
              (slice 0 (0 + batchSize this) queueItems)
              (mkRun (advance w) 0 0 []) Hsilent) as [Hres Hdb].
  destruct (sync_batch this (slice 0 (0 + batchSize this) queueItems) E
              (mkRun (advance w) 0 0 [])) as [res r1].
  cbn in Hres, Hdb. subst res. split; [reflexivity | exact Hdb].
Qed.

(** X8. With a positive batch size and a peer that settles every [POST],
    with an answer or with a failure, a run of [sync()] ends in every
    environment, storage faults included: it returns an aggregate or
    throws.  The [POST] carries no timeout: when the peer never answers the
    first batch of a log that is not empty, the run never comes back, and
    the store is as it was. *)
Theorem sync_ends_when_the_peer_settles :
  forall (E : Env) (this : SyncService) (w : World),
    0 < batchSize this ->
    (peer_answers E ->
     (exists result, fst (sync this E w) = Ok result)
     \/ (exists message, fst (sync this E w) = Throw message))
    /\ (db_fault E (tick w) = None ->
        sync_queue (db w) <> [] ->
        peer_sync E (S (S (tick w))) (apiUrl this ++ "/sync")
          {| items := slice 0 (batchSize this)
                        (sql_select_sync_queue_ordered (db w));
             client_timestamp := clock E (S (tick w)) |}
        = NoAnswer ->
        fst (sync this E w) = OutOfFuel
        /\ db (snd (sync this E w)) = db w).
Proof.
  intros E this w Hbs. split.
  - intros HA. pose proof (ends_sync this Hbs E w HA) as H.
    destruct (fst (sync this E w)) as [result | message |].
    + left. exists result. reflexivity.
    + right. exists message. reflexivity.
    + contradiction.
  - intros HE Hne Hsilent. apply sync_unanswered; assumption.
Qed.

Lemma sync_ends_when_the_peer_settles_witness :
  0 < batchSize default_service
  /\ peer_answers E_log_append_fails
  /\ ((exists result,
         fst (sync default_service E_log_append_fails w_t1) = Ok result)
      \/ (exists message,
            fst (sync default_service E_log_append_fails w_t1)
              = Throw message)).
Proof.
  assert (HA : peer_answers E_log_append_fails)
    by (intros n url req; discriminate).
  split; [cbn; lia |]. split; [exact HA |].
  apply (sync_ends_when_the_peer_settles E_log_append_fails
           default_service w_t1 (Nat.lt_0_succ 9)).
  exact HA.
Defined.

(** X9. With a batch size of 0 and a Mutation Log that is not empty, the
    loop of [sync()] never advances and the run does not return, whatever
    the peer does; when the peer settles every [POST], the loop sends one
    empty batch per turn, however many turns it is given. *)
Theorem sync_hangs_with_batch_size_0 :
  forall (E : Env) (this : SyncService) (w : World),
    no_db_faults E ->
    batchSize this = 0 ->
    sync_queue (db w) <> [] ->
    fst (sync this E w) = OutOfFuel
    /\ (peer_answers E ->
        forall fuel r,
          exists r',
            sync_loop fuel this (sql_select_sync_queue_ordered (db w)) 0 E r
              = (OutOfFuel, r')
            /\ List.length (net_log (world r'))
               = List.length (net_log (world r)) + fuel
            /\ (forall x, In x (net_log (world r')) ->
                          In x (net_log (world r))
                          \/ items (x_request x) = [])).
Proof.
  intros E this w HE Hbs Hne.
  set (queueItems := sql_select_sync_queue_ordered (db w)).
  assert (Hlen : 0 < List.length queueItems).
  { unfold queueItems, sql_select_sync_queue_ordered.
    rewrite (Permutation_length (order_by_created_at_perm _)).
    destruct (sync_queue (db w)); [contradiction | cbn; lia]. }
  split.
  - assert (Hloop : forall fuel r,
               fst (sync_loop fuel this queueItems 0 E r) = OutOfFuel).
    { induction fuel as [| fuel IH]; intros r; cbn [sync_loop];
        destruct (Nat.ltb_spec 0 (List.length queueItems)) as [_ | Hge];
        try lia; [reflexivity |].
      rewrite Hbs. cbn [Nat.add]. unfold bind.
      destruct (peer_sync E (S (tick (world r))) (apiUrl this ++ "/sync")
                  {| items := slice 0 0 queueItems;
                     client_timestamp := clock E (tick (world r)) |})
        as [data | message |] eqn:Hreply.
      - destruct (sync_batch_run E this (slice 0 0 queueItems) r HE)
          as (r1 & x & Hrun & _); [rewrite Hreply; discriminate |].
        rewrite Hrun. apply IH.
      - destruct (sync_batch_run E this (slice 0 0 queueItems) r HE)
          as (r1 & x & Hrun & _); [rewrite Hreply; discriminate |].
        rewrite Hrun. apply IH.
      - destruct (sync_batch_unanswered E this (slice 0 0 queueItems) r
                    Hreply) as [Hres _].
        destruct (sync_batch this (slice 0 0 queueItems) E r) as [res r1].
        cbn in Hres. subst res. reflexivity. }
    unfold sync, bind. rewrite db_query_ok by exact HE. fold queueItems.
    unfold sync_drain, with_locals, bind.
    specialize (Hloop (List.length queueItems) (mkRun (advance w) 0 0 [])).
    destruct (sync_loop (List.length queueItems) this queueItems 0 E
                (mkRun (advance w) 0 0 [])) as [res r'].
    cbn in Hloop. subst res. reflexivity.
  - intros HA.
    induction fuel as [| fuel IH]; intros r; cbn [sync_loop];
      destruct (Nat.ltb_spec 0 (List.length queueItems)) as [_ | Hge];
      try lia.
    + exists r. rewrite Nat.add_0_r. auto.
    + rewrite Hbs. cbn [Nat.add].
      destruct (sync_batch_run E this (slice 0 0 queueItems) r HE
                  (HA _ _ _))
        as (r1 & x & Hrun & Hl & Hx & _).
      unfold bind. rewrite Hrun.
      destruct (IH r1) as (r' & Hrun' & Hlen' & Hin').
      exists r'. split; [exact Hrun' |]. split.
      * rewrite Hlen', Hl, length_app. cbn. lia.
      * intros y Hy. destruct (Hin' y Hy) as [Hy1 | Hy1]; [| auto].
        rewrite Hl in Hy1. apply in_app_or in Hy1 as [Hy1 | [Hy1 | []]].
        -- auto.
        -- subst y. right. rewrite Hx. reflexivity.
Qed.

Lemma sync_hangs_with_batch_size_0_witness :
  no_db_faults E_ok
  /\ fst (sync (constructor {| API_BASE_URL := None;
                               SYNC_BATCH_SIZE := Some 0;
                               SYNC_MAX_RETRIES := None |}) E_ok w_t1)
     = OutOfFuel.
Proof.
  split; [intro n; reflexivity |].
  apply (sync_hangs_with_batch_size_0 E_ok
           (constructor {| API_BASE_URL := None; SYNC_BATCH_SIZE := Some 0;
                           SYNC_MAX_RETRIES := None |}) w_t1
           (fun n => eq_refl) eq_refl).
  discriminate.
Defined.

(** X10. On an empty Mutation Log a run of [sync()] is a no-op, for every
    peer and every batch size, 0 included: it sends nothing, leaves the
    store as it is and returns the empty aggregate with [success] set. *)
Theorem sync_of_empty_log :
  forall (E : Env) (this : SyncService) (w : World),
    db_fault E (tick w) = None ->
    sync_queue (db w) = [] ->
    sync this E w
    = (Ok {| success := true; synced_items := 0; failed_items := 0;
             errors := [] |},
       advance w).
Proof.
  intros E this w HE Hq.
  unfold sync, bind, db_query. rewrite HE.
  unfold sql_select_sync_queue_ordered. rewrite Hq. reflexivity.
Qed.

Lemma sync_of_empty_log_witness :
  db_fault E_peer_down (tick w_empty) = None
  /\ sync_queue (db w_empty) = []
  /\ fst (sync service_batch_1 E_peer_down w_empty)
     = Ok {| success := true; synced_items := 0; failed_items := 0;
             errors := [] |}.
Proof.
  split; [reflexivity |]. split; [reflexivity |].
  rewrite (sync_of_empty_log E_peer_down service_batch_1 w_empty
             eq_refl eq_refl).
  reflexivity.
Defined.

(* ===================================================================== *)
(** ** Invariants of the store across a run                               *)
(* ===================================================================== *)

Lemma on_processed_item_store :
  forall E item r,
    no_db_faults E ->
    exists r',
      on_processed_item item E r = (Ok tt, r')
      /\ db (world r')
         = if item_confirmed item
           then store_after_confirmation (client_id item)
                  (truthy_string (p_server_id (serverData_of item)))
                  (clock E (tick (world r))) (db (world r))
           else store_after_rejection (client_id item)
                  (clock E (S (tick (world r)))) (db (world r)).
Proof.
  intros E item r HE. destruct (item_confirmed item) eqn:Hc.
  - destruct (confirmed_item_run E item r HE Hc)
      as (r' & Hrun & _ & _ & _ & _ & Ht & Hq).
    exists r'. split; [exact Hrun |].
    destruct (db (world r')) as [ts q]. cbn in Ht, Hq. subst ts q.
    reflexivity.
  - destruct (rejected_item_run E item r HE Hc)
      as (r' & Hrun & _ & _ & _ & _ & Ht & Hq).
    exists r'. split; [exact Hrun |].
    destruct (db (world r')) as [ts q]. cbn in Ht, Hq. subst ts q.
    destruct (db (world r)); reflexivity.
Qed.

(** A property of the store kept by each of the three effects an entry can
    have is kept by a whole run. *)
Lemma sync_keeps_invariant :
  forall (Inv : Db -> Prop) E this w,
    no_db_faults E ->
    peer_answers E ->
    0 < batchSize this ->
    (forall id server_id ts d,
        Inv d -> Inv (store_after_confirmation id server_id ts d)) ->
    (forall id ts d, Inv d -> Inv (store_after_rejection id ts d)) ->
    (forall message d item,
        Inv d -> Inv (store_after_failure this message d item)) ->
    Inv (db w) ->
    exists result w', sync this E w = (Ok result, w') /\ Inv (db w').
Proof.
  intros Inv E this w HE HA Hbs Hconf Hrej Hfail Hw.
  assert (Hitems : forall its r,
             Inv (db (world r)) ->
             exists r',
               for_each its on_processed_item E r = (Ok tt, r')
               /\ Inv (db (world r'))).
  { induction its as [| item its IH]; intros r Hr.
    - exists r. auto.
    - destruct (on_processed_item_store E item r HE) as (r1 & Hrun & Hdb).
      cbn [for_each]. unfold bind. rewrite Hrun. apply IH. rewrite Hdb.
      destruct (item_confirmed item); [apply Hconf | apply Hrej]; exact Hr. }
  assert (Hfold : forall message batch d,
             Inv d ->
             Inv (fold_left (store_after_failure this message) batch d)).
  { intros message batch. induction batch as [| item batch IH];
      intros d Hd; cbn; [exact Hd | apply IH, Hfail, Hd]. }
  set (queueItems := sql_select_sync_queue_ordered (db w)).
  destruct (sync_loop_rule E this queueItems
              (fun _ r => Inv (db (world r))) Hbs) with
      (fuel := List.length queueItems) (i := 0)
      (r := mkRun (advance w) 0 0 [])
    as (r' & j & Hrun & _ & Hr').
  - intros i r _ Hr. unfold sync_batch, try_catch, bind, in_world.
    rewrite processBatch_run.
    destruct (peer_sync E (S (tick (world r))) (apiUrl this ++ "/sync")
                {| items := slice i (i + batchSize this) queueItems;
                   client_timestamp := clock E (tick (world r)) |})
      as [data | message |] eqn:Hreply;
      [| | exfalso; apply (HA _ _ _ Hreply)].
    + match goal with
      | |- context [for_each _ on_processed_item E ?r0] =>
          destruct (Hitems (processed_items data) r0 Hr)
            as (r1 & Hrun & Hr1)
      end.
      rewrite Hrun. exists r1. auto.
    + match goal with
      | |- context [for_each ?b (on_failed_item this message) E ?r0] =>
          destruct (for_each_failed_run E this message b r0 HE)
            as (r1 & Hrun & _ & _ & _ & _ & Hdb)
      end.
      rewrite Hrun. exists r1. split; [reflexivity |].
      rewrite Hdb. apply Hfold, Hr.
  - lia.
  - exact Hw.
  - unfold sync, bind. rewrite db_query_ok by exact HE. fold queueItems.
    unfold sync_drain, with_locals, bind. rewrite Hrun.
    unfold get_run, ret. eexists. exists (world r').
    split; [reflexivity | exact Hr'].
Qed.

(** The same for the store a run leaves in every case, the run that does
    not come back included: no condition on the peer or on the batch size. *)
Lemma sync_keeps_invariant_always :
  forall (Inv : Db -> Prop) E this w,
    no_db_faults E ->
    (forall id server_id ts d,
        Inv d -> Inv (store_after_confirmation id server_id ts d)) ->
    (forall id ts d, Inv d -> Inv (store_after_rejection id ts d)) ->
    (forall message d item,
        Inv d -> Inv (store_after_failure this message d item)) ->
    Inv (db w) ->
    Inv (db (snd (sync this E w))).
Proof.
  intros Inv E this w HE Hconf Hrej Hfail Hw.
  assert (Hitems : forall its r,
             Inv (db (world r)) ->
             exists r',
               for_each its on_processed_item E r = (Ok tt, r')
               /\ Inv (db (world r'))).
  { induction its as [| item its IH]; intros r Hr.
    - exists r. auto.
    - destruct (on_processed_item_store E item r HE) as (r1 & Hrun & Hdb).
      cbn [for_each]. unfold bind. rewrite Hrun. apply IH. rewrite Hdb.
      destruct (item_confirmed item); [apply Hconf | apply Hrej]; exact Hr. }
  assert (Hfold : forall message batch d,
             Inv d ->
             Inv (fold_left (store_after_failure this message) batch d)).
  { intros message batch. induction batch as [| item batch IH];
      intros d Hd; cbn; [exact Hd | apply IH, Hfail, Hd]. }
  assert (Hbatch : forall batch r,
             Inv (db (world r)) ->
             Inv (db (world (snd (sync_batch this batch E r))))).
  { intros batch r Hr. unfold sync_batch, try_catch, bind, in_world.
    rewrite processBatch_run.
    destruct (peer_sync E (S (tick (world r))) (apiUrl this ++ "/sync")
                {| items := batch;
                   client_timestamp := clock E (tick (world r)) |})
      as [data | message |].
    - match goal with
      | |- context [for_each _ on_processed_item E ?r0] =>
          destruct (Hitems (processed_items data) r0 Hr)
            as (r1 & Hrun & Hr1)
      end.
      rewrite Hrun. exact Hr1.
    - match goal with
      | |- context [for_each ?b (on_failed_item this message) E ?r0] =>
          destruct (for_each_failed_run E this message b r0 HE)
            as (r1 & Hrun & _ & _ & _ & _ & Hdb)
      end.
      rewrite Hrun. cbn [snd]. rewrite Hdb. apply Hfold, Hr.
    - exact Hr. }
  set (queueItems := sql_select_sync_queue_ordered (db w)).
  assert (Hloop : forall fuel i r,
             Inv (db (world r)) ->
             Inv (db (world (snd (sync_loop fuel this queueItems i E r))))).
  { induction fuel as [| fuel IH]; intros i r Hr; cbn [sync_loop];
      destruct (i <? List.length queueItems); try exact Hr.
    unfold bind.
    pose proof (Hbatch (slice i (i + batchSize this) queueItems) r Hr)
      as H1.
    destruct (sync_batch this (slice i (i + batchSize this) queueItems) E r)
      as [[[] | message |] r1]; cbn [snd] in H1;
      [apply IH; exact H1 | exact H1 | exact H1]. }
  unfold sync, bind. rewrite db_query_ok by exact HE. fold queueItems.
  unfold sync_drain, with_locals, bind.
  pose proof (Hloop (List.length queueItems) 0 (mkRun (advance w) 0 0 []) Hw)
    as H1.
  destruct (sync_loop (List.length queueItems) this queueItems 0 E
              (mkRun (advance w) 0 0 [])) as [[[] | message |] r1];
    exact H1.
Qed.

Lemma synced_clear_confirmation :
  forall id server_id ts d,
    synced_clear d ->
    synced_clear (store_after_confirmation id server_id ts d).
Proof.
  intros id server_id ts d H row q Hrow Hq Hst. cbn in Hrow, Hq.
  apply filter_In in Hq as [Hq Hne].
  apply negb_true_iff, String.eqb_neq in Hne.
  apply in_map_iff in Hrow as (row0 & Heq & Hrow0).
  destruct (String.eqb (t_id row0) id) eqn:Hid; subst row.
  - apply String.eqb_eq in Hid. cbn. congruence.
  - apply (H row0 q Hrow0 Hq Hst).
Qed.

Lemma synced_clear_rejection :
  forall id ts d,
    synced_clear d -> synced_clear (store_after_rejection id ts d).
Proof.
  intros id ts d H row q Hrow Hq Hst. cbn in Hrow, Hq.
  apply in_map_iff in Hrow as (row0 & Heq & Hrow0).
  destruct (String.eqb (t_id row0) id); subst row.
  - discriminate Hst.
  - apply (H row0 q Hrow0 Hq Hst).
Qed.

Lemma synced_clear_failure :
  forall this message d item,
    synced_clear d ->
    synced_clear (store_after_failure this message d item).
Proof.
  intros this message d item H row q Hrow Hq Hst.
  rewrite store_after_failure_queue in Hq.
  rewrite store_after_failure_tasks in Hrow.
  apply in_map_iff in Hq as (q0 & Hq0 & Hin0).
  assert (Hrow0 : In row (tasks d)).
  { destruct (maxRetries this <? q_retry_count item + 1); [| exact Hrow].
    apply in_map_iff in Hrow as (row0 & Heq & Hrow0).
    destruct (String.eqb (t_id row0) (q_task_id item)); subst row.
    - discriminate Hst.
    - exact Hrow0. }
  assert (Htask : q_task_id q = q_task_id q0).
  { destruct (String.eqb (q_id q0) (q_id item)); subst q; reflexivity. }
  rewrite Htask. apply (H row q0 Hrow0 Hin0 Hst).
Qed.

(** X11. A record marked [synced] has no entry left in the Mutation Log:
    with every storage statement accepted, this holds after a run of
    [sync()] (which returns when every [POST] settles, and leaves a store
    where it holds even when a [POST] is never answered), after
    [updateTask] and after [deleteTask] whenever it held before, and after
    [createTask] when no synced record already has the new id. *)
Theorem synced_records_have_no_entry :
  forall (E : Env) (this : SyncService) (w : World),
    no_db_faults E ->
    0 < batchSize this ->
    synced_clear (db w) ->
    (peer_answers E ->
     exists result w',
       sync this E w = (Ok result, w') /\ synced_clear (db w'))
    /\ synced_clear (db (snd (sync this E w)))
    /\ (forall id updates,
           synced_clear (db (snd (updateTask id updates E w))))
    /\ (forall id, synced_clear (db (snd (deleteTask id E w))))
    /\ (forall taskData,
           exists task w',
             createTask taskData E w = (Ok task, w')
             /\ ((forall row, In row (tasks (db w)) ->
                              t_id row = t_id task ->
                              t_sync_status row <> synced) ->
                 synced_clear (db w'))).
Proof.
  intros E this w HE Hbs Hw.
  assert (Hmark : forall id set entry,
             (forall row, t_sync_status (set row) = pending) ->
             q_task_id entry = id ->
             synced_clear
               {| tasks := map (fun r => if String.eqb (t_id r) id
                                         then set r else r) (tasks (db w));
                  sync_queue := sync_queue (db w) ++ [entry] |}).
  { intros id set entry Hset Hentry row q Hrow Hq Hst. cbn in Hrow, Hq.
    apply in_map_iff in Hrow as (row0 & Heq & Hrow0).
    destruct (String.eqb (t_id row0) id) eqn:Hid; subst row.
    - rewrite Hset in Hst. discriminate.
    - apply String.eqb_neq in Hid.
      apply in_app_or in Hq as [Hq | [Hq | []]].
      + apply (Hw row0 q Hrow0 Hq Hst).
      + subst q. congruence. }
  split; [| split; [| split; [| split]]].
  - intros HA. apply sync_keeps_invariant; auto.
    + apply synced_clear_confirmation.
    + apply synced_clear_rejection.
    + intros message d item. apply synced_clear_failure.
  - apply sync_keeps_invariant_always; auto.
    + apply synced_clear_confirmation.
    + apply synced_clear_rejection.
    + intros message d item. apply synced_clear_failure.
  - intros id updates. unfold updateTask, bind.
    rewrite getTask_run, HE.
    destruct (live_task id (db w)) as [existing |]; [| exact Hw].
    unfold now, uuidv4, ret. rewrite !db_run_ok by exact HE. cbn.
    apply Hmark; reflexivity.
  - intros id. unfold deleteTask, bind. rewrite getTask_run, HE.
    destruct (live_task id (db w)) as [existing |]; [| exact Hw].
    unfold now, uuidv4, ret. rewrite !db_run_ok by exact HE. cbn.
    apply Hmark; reflexivity.
  - intros taskData.
    destruct (createTask_run E taskData w HE)
      as (task & w' & entry & Hrun & Ht & Hq & _ & _ & _ & _ & _ & Hst & _
          & _ & Hentry).
    exists task, w'. split; [exact Hrun |].
    intros Hfresh row q Hrow Hin Hsynced.
    rewrite Ht in Hrow. rewrite Hq in Hin.
    apply in_app_or in Hrow as [Hrow | [Hrow | []]].
    + apply in_app_or in Hin as [Hin | [Hin | []]].
      * apply (Hw row q Hrow Hin Hsynced).
      * subst q. intros Heq. apply (Hfresh row Hrow); [| exact Hsynced].
        congruence.
    + subst row. rewrite Hst in Hsynced. discriminate.
Qed.

Lemma synced_records_have_no_entry_witness :
  no_db_faults E_ok
  /\ peer_answers E_ok
  /\ 0 < batchSize default_service
  /\ synced_clear (db w_t1)
  /\ exists result w',
       sync default_service E_ok w_t1 = (Ok result, w')
       /\ synced_clear (db w').
Proof.
  assert (HA : peer_answers E_ok) by (intros n url req; discriminate).
  split; [intro n; reflexivity |]. split; [exact HA |].
  split; [cbn; lia |].
  assert (H : synced_clear (db w_t1)).
  { intros row q [Hrow | []] _ Hst. subst row. discriminate Hst. }
  split; [exact H |].
  apply (synced_records_have_no_entry E_ok default_service w_t1
           (fun n => eq_refl) (Nat.lt_0_succ 9) H).
  exact HA.
Defined.

(* ===================================================================== *)
(** ** Whole runs                                                         *)
(* ===================================================================== *)

(** *** Every send fails *)

Lemma sync_batch_failures_counted :
  forall E this message d0 queueItems i r,
    no_db_faults E ->
    (forall n url req, peer_sync E n url req = Fail message) ->
    failures_stored this message d0 queueItems i r
    /\ failures_counted message queueItems i r ->
    exists r',
      sync_batch this (slice i (i + batchSize this) queueItems) E r
        = (Ok tt, r')
      /\ failures_stored this message d0 queueItems (i + batchSize this) r'
      /\ failures_counted message queueItems (i + batchSize this) r'.
Proof.
  intros E this message d0 queueItems i r HE Hdown [Hst (Hs & Hf & He)].
  destruct (sync_batch_run E this
              (slice i (i + batchSize this) queueItems) r HE)
    as (r' & x & Hrun & _ & Hx & Hreply & Hs' & Hf' & He' & Hdb);
    [rewrite Hdown; discriminate |].
  rewrite Hdown in Hreply.
  unfold exchange_synced in Hs'. unfold exchange_failed in Hf'.
  unfold exchange_error_details in He'.
  rewrite Hreply in Hs', Hf', He', Hdb. rewrite Hx in Hf', He'.
  exists r'. split; [exact Hrun |]. split; [| split; [| split]].
  - unfold failures_stored in *.
    rewrite Hdb, Hst, <- fold_left_app, firstn_slice. reflexivity.
  - rewrite Hs', Hs. reflexivity.
  - rewrite Hf', Hf, <- firstn_slice, length_app. reflexivity.
  - rewrite He', He, <- firstn_slice, map_app. reflexivity.
Qed.

(** X12. A run in which every send fails, on a log with unique entry ids:
    the run still returns; every entry is counted as failed and none as
    synced, with one error detail per entry in sending order; no entry is
    lost or moved, each has one more retry and the message; and the only
    change to the records is [error] on those with an entry past the
    maximum. *)
Theorem sync_with_peer_down :
  forall (E : Env) (this : SyncService) (message : string) (w : World),
    no_db_faults E ->
    0 < batchSize this ->
    (forall n url req, peer_sync E n url req = Fail message) ->
    NoDup (map q_id (sync_queue (db w))) ->
    exists result w',
      sync this E w = (Ok result, w')
      /\ synced_items result = 0
      /\ failed_items result = List.length (sync_queue (db w))
      /\ success result = (List.length (sync_queue (db w)) =? 0)
      /\ map error_detail (errors result)
         = map (fun q => (q_task_id q, Operation_to_string (q_operation q),
                          message))
               (sql_select_sync_queue_ordered (db w))
      /\ sync_queue (db w') = map (record_failure message) (sync_queue (db w))
      /\ tasks (db w')
         = map (fun row =>
                  if exhausted_in this (sync_queue (db w)) row
                  then set_error row else row)
               (tasks (db w)).
Proof.
  intros E this message w HE Hbs Hdown Hnd.
  set (queueItems := sql_select_sync_queue_ordered (db w)).
  assert (Hperm : Permutation queueItems (sync_queue (db w)))
    by apply order_by_created_at_perm.
  destruct (sync_loop_rule E this queueItems
              (fun i r =>
                 failures_stored this message (db w) queueItems i r
                 /\ failures_counted message queueItems i r) Hbs
              (fun i r _ H =>
                 sync_batch_failures_counted E this message (db w)
                   queueItems i r HE Hdown H)
              (List.length queueItems) 0 (mkRun (advance w) 0 0 []))
    as (r' & j & Hrun & Hj & Hst & Hs & Hf & He).
  - lia.
  - split; [reflexivity | repeat split].
  - unfold failures_stored in Hst.
    rewrite firstn_all2 in Hst, Hf, He by exact Hj.
    unfold sync, bind. rewrite db_query_ok by exact HE. fold queueItems.
    unfold sync_drain, with_locals, bind. rewrite Hrun.
    unfold get_run, ret. eexists. exists (world r').
    split; [reflexivity |]. cbn.
    destruct (failures_closed_form this message queueItems (db w) Hnd)
      as [Hq Ht].
    { intros y Hy. eapply Permutation_in; eassumption. }
    rewrite Hs, Hf, He, Hst, Hq, Ht, (Permutation_length Hperm).
    repeat split.
    + apply map_ext_in. intros q Hq'.
      assert (Hin : in_batch queueItems q = true).
      { apply existsb_exists. exists q. split.
        - eapply Permutation_in; [apply Permutation_sym, Hperm | exact Hq'].
        - apply String.eqb_refl. }
      rewrite Hin. reflexivity.
    + apply map_ext. intros row. unfold exhausted_in.
      rewrite (existsb_perm _ _ _ _ Hperm). reflexivity.
Qed.

Lemma sync_with_peer_down_witness :
  no_db_faults E_peer_down
  /\ 0 < batchSize service_batch_1
  /\ NoDup (map q_id (sync_queue (db w_t1)))
  /\ exists result w',
       sync service_batch_1 E_peer_down w_t1 = (Ok result, w')
       /\ failed_items result = 2
       /\ sync_queue (db w')
          = map (record_failure "Network Error") (sync_queue (db w_t1)).
Proof.
  assert (Hnd : NoDup (map q_id (sync_queue (db w_t1)))).
  { cbn. constructor.
    - intros [H | []]. discriminate H.
    - constructor; [intros [] | constructor]. }
  split; [intro n; reflexivity |]. split; [cbn; lia |].
  split; [exact Hnd |].
  destruct (sync_with_peer_down E_peer_down service_batch_1 "Network Error"
              w_t1 (fun n => eq_refl) (le_n 1)
              (fun n url req => eq_refl) Hnd)
    as (result & w' & Hrun & _ & Hf & _ & _ & Hq & _).
  exists result, w'. repeat split; assumption.
Defined.

(** *** Every entry is confirmed *)

Lemma mentions_app :
  forall a b id, mentions (a ++ b) id = mentions a id || mentions b id.
Proof. intros a b id. apply existsb_app. Qed.

Lemma filter_twice :
  forall A (f g : A -> bool) l,
    filter g (filter f l) = filter (fun x => f x && g x) l.
Proof.
  intros A f g l. induction l as [| x l IH]; cbn; [reflexivity |].
  destruct (f x); cbn; [destruct (g x) |]; rewrite IH; reflexivity.
Qed.

Lemma Forall2_of_map :
  forall A (R : A -> A -> Prop) (f : A -> A) l l',
    Forall2 R (map f l) l' -> Forall2 (fun a b => R (f a) b) l l'.
Proof.
  intros A R f l. induction l as [| x l IH]; intros l' H; cbn in H;
    inversion H; subst; constructor; auto.
Qed.

Lemma Forall2_compose :
  forall A (R1 R2 R3 : A -> A -> Prop),
    (forall a b c, R1 a b -> R2 b c -> R3 a c) ->
    forall l1 l2 l3, Forall2 R1 l1 l2 -> Forall2 R2 l2 l3 -> Forall2 R3 l1 l3.
Proof.
  intros A R1 R2 R3 H l1 l2 l3 H12. revert l3.
  induction H12; intros l3 H23; inversion H23; subst; constructor; eauto.
Qed.

Lemma confirmed_by_chain :
  forall ids1 ids2 a b c,
    confirmed_by ids1 a b -> confirmed_by ids2 b c ->
    confirmed_by (ids1 ++ ids2) a c.
Proof.
  unfold confirmed_by. intros ids1 ids2 a b c [Hab H1] [Hbc H2].
  split; [congruence |]. rewrite mentions_app. rewrite Hab in H2.
  destruct (mentions ids2 (t_id a)).
  - rewrite orb_true_r. exact H2.
  - rewrite orb_false_r. subst c. exact H1.
Qed.

Lemma for_each_confirming_run :
  forall E its r,
    no_db_faults E ->
    forallb item_confirmed its = true ->
    exists r',
      for_each its on_processed_item E r = (Ok tt, r')
      /\ successCount r' = successCount r + List.length its
      /\ failCount r' = failCount r
      /\ run_errors r' = run_errors r
      /\ sync_queue (db (world r'))
         = filter (fun q => negb (mentions (map client_id its) (q_task_id q)))
                  (sync_queue (db (world r)))
      /\ Forall2 (confirmed_by (map client_id its))
           (tasks (db (world r))) (tasks (db (world r'))).
Proof.
  intros E its r HE. revert r.
  induction its as [| item its IH]; intros r Hall.
  - exists r. cbn. rewrite Nat.add_0_r. repeat split; auto.
    + clear. induction (sync_queue (db (world r))) as [| q l IHl];
        cbn; congruence.
    + apply Forall2_same. intros a. split; reflexivity.
  - cbn in Hall. apply andb_true_iff in Hall as [Hc Hall].
    destruct (confirmed_item_run E item r HE Hc)
      as (r1 & Hrun & Hs & Hf & He & _ & Ht & Hq).
    destruct (IH r1 Hall) as (r' & Hrun' & Hs' & Hf' & He' & Hq' & Ht').
    exists r'. cbn [for_each]. unfold bind. rewrite Hrun.
    split; [exact Hrun' |].
    split; [rewrite Hs', Hs; cbn; lia |].
    split; [congruence |]. split; [congruence |]. split.
    + rewrite Hq', Hq, filter_twice. apply filter_ext. intros q.
      cbn. rewrite negb_orb. reflexivity.
    + rewrite Ht in Ht'. apply Forall2_of_map in Ht'.
      eapply Forall2_impl; [| exact Ht'].
      intros a b. unfold confirmed_by. cbn [map mentions existsb].
      fold (mentions (map client_id its)).
      destruct (String.eqb (t_id a) (client_id item)) eqn:Hid; cbn.
      * intros [Hb H]. split; [exact Hb |].
        destruct (mentions (map client_id its) (t_id a));
          [exact H | subst b; reflexivity].
      * intros H. exact H.
Qed.

Lemma sync_batch_confirmations_stored :
  forall E this d0 queueItems i r,
    no_db_faults E ->
    (forall n url req, confirms_batch (peer_sync E n url req) (items req)) ->
    confirmations_stored d0 queueItems i r ->
    exists r',
      sync_batch this (slice i (i + batchSize this) queueItems) E r
        = (Ok tt, r')
      /\ confirmations_stored d0 queueItems (i + batchSize this) r'.
Proof.
  intros E this d0 queueItems i r HE Hpeer (Hs & Hf & He & Hq & Ht).
  set (batch := slice i (i + batchSize this) queueItems).
  unfold sync_batch, try_catch, bind, in_world. rewrite processBatch_run.
  destruct (Hpeer (S (tick (world r))) (apiUrl this ++ "/sync")%string
              {| items := batch;
                 client_timestamp := clock E (tick (world r)) |})
    as (data & Hreply & Hids & Hall).
  rewrite Hreply. cbn [items] in Hids.
  match goal with
  | |- context [for_each _ on_processed_item E ?r0] =>
      destruct (for_each_confirming_run E (processed_items data) r0 HE Hall)
        as (r' & Hrun & Hs' & Hf' & He' & Hq' & Ht')
  end.
  rewrite Hrun. exists r'. split; [reflexivity |].
  cbn [world successCount failCount run_errors db] in *.
  assert (Hlen : List.length (processed_items data) = List.length batch).
  { rewrite <- (length_map client_id), Hids. apply length_map. }
  unfold confirmations_stored.
  rewrite <- !firstn_slice. fold batch. rewrite map_app, <- Hids.
  split; [rewrite Hs', Hs, Hlen, length_app; reflexivity |].
  split; [congruence |]. split; [congruence |]. split.
  - rewrite Hq', Hq, filter_twice. apply filter_ext. intros q.
    rewrite mentions_app, negb_orb. reflexivity.
  - eapply Forall2_compose; [| exact Ht | exact Ht'].
    apply confirmed_by_chain.
Qed.

Lemma filter_none :
  forall A (f : A -> bool) l,
    (forall x, In x l -> f x = false) -> filter f l = [].
Proof.
  intros A f l H. induction l as [| x l IH]; cbn; [reflexivity |].
  rewrite (H x) by (left; reflexivity). apply IH.
  intros y Hy. apply H. right. exact Hy.
Qed.

(** X13. A run against a peer that confirms, entry by entry, every batch it
    is sent: the run returns [success] with every entry counted as synced
    and no error; the Mutation Log is empty afterwards; every record that
    had an entry is [synced], and the other records are untouched. *)
Theorem sync_with_confirming_peer :
  forall (E : Env) (this : SyncService) (w : World),
    no_db_faults E ->
    0 < batchSize this ->
    (forall n url req, confirms_batch (peer_sync E n url req) (items req)) ->
    exists w',
      sync this E w
      = (Ok {| success := true;
               synced_items := List.length (sync_queue (db w));
               failed_items := 0;
               errors := [] |}, w')
      /\ sync_queue (db w') = []
      /\ Forall2 (confirmed_by (map q_task_id (sync_queue (db w))))
           (tasks (db w)) (tasks (db w')).
Proof.
  intros E this w HE Hbs Hpeer.
  set (queueItems := sql_select_sync_queue_ordered (db w)).
  assert (Hperm : Permutation queueItems (sync_queue (db w)))
    by apply order_by_created_at_perm.
  destruct (sync_loop_rule E this queueItems
              (confirmations_stored (db w) queueItems) Hbs
              (fun i r _ H =>
                 sync_batch_confirmations_stored E this (db w) queueItems
                   i r HE Hpeer H)
              (List.length queueItems) 0 (mkRun (advance w) 0 0 []))
    as (r' & j & Hrun & Hj & Hs & Hf & He & Hq & Ht).
  - lia.
  - repeat split; cbn.
    + clear. induction (sync_queue (db w)) as [| q l IHl]; cbn; congruence.
    + apply Forall2_same. intros a. split; reflexivity.
  - rewrite firstn_all2 in Hs, Hq, Ht by exact Hj.
    exists (world r'). split; [| split].
    + unfold sync, bind. rewrite db_query_ok by exact HE. fold queueItems.
      unfold sync_drain, with_locals, bind. rewrite Hrun.
      unfold get_run, ret.
      rewrite Hs, Hf, He, (Permutation_length Hperm). reflexivity.
    + rewrite Hq. apply filter_none. intros q Hin.
      apply negb_false_iff, existsb_exists. exists (q_task_id q).
      split; [| apply String.eqb_refl].
      apply in_map. eapply Permutation_in;
        [apply Permutation_sym, Hperm | exact Hin].
    + eapply Forall2_impl; [| exact Ht].
      intros a b. unfold confirmed_by, mentions.
      rewrite (existsb_perm _ _ _ _ (Permutation_map q_task_id Hperm)).
      auto.
Qed.

Lemma confirm_all_confirms :
  forall req, confirms_batch (confirm_all req) (items req).
Proof.
  intros req. unfold confirms_batch, confirm_all. eexists.
  split; [reflexivity |]. cbn. split.
  - rewrite map_map. reflexivity.
  - induction (items req) as [| q l IH]; cbn; auto.
Qed.

Lemma sync_with_confirming_peer_witness :
  no_db_faults E_ok
  /\ 0 < batchSize service_batch_1
  /\ exists w',
       sync service_batch_1 E_ok w_t1
       = (Ok {| success := true; synced_items := 2; failed_items := 0;
                errors := [] |}, w')
       /\ sync_queue (db w') = [].
Proof.
  split; [intro n; reflexivity |]. split; [cbn; lia |].
  destruct (sync_with_confirming_peer E_ok service_batch_1 w_t1
              (fun n => eq_refl) (le_n 1)
              (fun n url req => confirm_all_confirms req))
    as (w' & Hrun & Hq & _).
  exists w'. split; assumption.
Defined.

(** *** Overlapping runs, in general *)




(** A record is updated between the return of the first call and the
    answer to the second: the second call is sent the [create] it had read,
    and its confirmation deletes the entry of the update, which was never
    sent.  The record carries the new title, is marked [synced] and has no
    entry left. *)
Example overlapping_runs_drop_a_later_update :
  exists resultA resultB w',
    sync_overlapping_around default_service
      (Update "t1" (q_data entry_update_t1)) E_ok w_t1_created
      = (Ok (resultA, resultB), w')
    /\ map (fun x => items (x_request x)) (net_log w')
       = [[entry_create_t1]; [entry_create_t1]]
    /\ map t_title (tasks (db w')) = ["Buy oat milk"]
    /\ map t_sync_status (tasks (db w')) = [synced]
    /\ sync_queue (db w') = [].
Proof.
  eexists. eexists. eexists. split; [vm_compute; reflexivity |].
  repeat split.
Qed.

(* ===================================================================== *)
(** ** The sync routes                                                    *)
(* ===================================================================== *)

Import SyncRoutes.

Lemma checkConnectivity_run :
  forall this E w,
    exists online, checkConnectivity this E w = (Ok online, advance w).
Proof.
  intros this E w. unfold checkConnectivity, try_catch, bind, axios_get, ret.
  destruct (peer_health E (tick w) (apiUrl this ++ "/health"))
    as [st lat | | e];
    [destruct ((200 <=? st) && (st <? 300) && (lat <? 5000)) |..];
    eexists; reflexivity.
Qed.

(** X14. The handler of [POST /sync], with a positive batch size.  When the
    probe fails it answers 503 and [sync()] is not called: the store is as
    before and nothing was sent to the peer.  When the probe succeeds and
    the peer settles every [POST], it answers 200 with the aggregate that
    [sync()] returned, or 500 when [sync()] threw; it never throws.  The
    [POST] carries no timeout: when the probe succeeds and the peer then
    never answers the first batch, the handler never answers. *)
Theorem post_sync_answers :
  forall (E : Env) (this : SyncService) (w : World),
    0 < batchSize this ->
    exists online,
      checkConnectivity this E w = (Ok online, advance w)
      /\ if online
         then
           (peer_answers E ->
            exists response w',
              post_sync this E w = (Ok response, w')
              /\ match sync this E (advance w) with
                 | (Ok result, w2) =>
                     response = mkHttp 200 (body_result result) /\ w' = w2
                 | (Throw _, w2) =>
                     response
                     = mkHttp 500 (body_error "Failed to perform sync")
                     /\ w' = w2
                 | (OutOfFuel, _) => False
                 end)
           /\ (db_fault E (S (tick w)) = None ->
               sync_queue (db w) <> [] ->
               peer_sync E (S (S (S (tick w)))) (apiUrl this ++ "/sync")
                 {| items := slice 0 (batchSize this)
                               (sql_select_sync_queue_ordered (db w));
                    client_timestamp := clock E (S (S (tick w))) |}
               = NoAnswer ->
               fst (post_sync this E w) = OutOfFuel)
         else
           post_sync this E w
           = (Ok (mkHttp 503 (body_error "Server not reachable")),
              advance w).
Proof.
  intros E this w Hbs.
  destruct (checkConnectivity_run this E w) as (online & Hprobe).
  exists online. split; [exact Hprobe |].
  unfold post_sync, try_catch, bind. rewrite Hprobe.
  destruct online; cbn [negb]; [| reflexivity].
  split.
  - intros HA. pose proof (ends_sync this Hbs E (advance w) HA) as Hends.
    destruct (sync this E (advance w)) as [[result | message |] w2];
      cbn in Hends.
    + eexists. eexists. split; [reflexivity |]. split; reflexivity.
    + eexists. eexists. split; [reflexivity |]. split; reflexivity.
    + contradiction Hends. reflexivity.
  - intros HE Hne Hsilent.
    destruct (sync_unanswered E this (advance w) HE Hne Hsilent)
      as [Hres _].
    destruct (sync this E (advance w)) as [res w2]. cbn in Hres.
    subst res. reflexivity.
Qed.

Lemma post_sync_answers_witness :
  0 < batchSize default_service
  /\ post_sync default_service E_peer_down w_t1
     = (Ok (mkHttp 503 (body_error "Server not reachable")), advance w_t1).
Proof.
  split; [cbn; lia |].
  destruct (post_sync_answers E_peer_down default_service w_t1
              (Nat.lt_0_succ 9))
    as (online & Hprobe & H).
  vm_compute in Hprobe. inversion Hprobe; subst online.
  exact H.
Defined.

Lemma sql_max_bounds :
  forall l t,
    In (Some t) l ->
    exists m, fold_right sql_max None l = Some m /\ (t <= m)%Z.
Proof.
  induction l as [| a l IH]; intros t Hin; [contradiction |].
  cbn. destruct Hin as [Ha | Hin].
  - subst a. destruct (fold_right sql_max None l) as [y |]; cbn.
    + exists (Z.max t y). split; [reflexivity | lia].
    + exists t. split; [reflexivity | lia].
  - destruct (IH t Hin) as (m & Hm & Hle). rewrite Hm.
    destruct a as [x |]; cbn.
    + exists (Z.max x m). split; [reflexivity | lia].
    + exists m. auto.
Qed.

Lemma sql_max_attained :
  forall l m, fold_right sql_max None l = Some m -> In (Some m) l.
Proof.
  induction l as [| a l IH]; intros m H; [discriminate |].
  cbn in H. destruct a as [x |], (fold_right sql_max None l) as [y |];
    cbn in H; inversion H; subst.
  - destruct (Z.max_spec x y) as [[_ Hmax] | [_ Hmax]]; rewrite Hmax.
    + right. apply IH. reflexivity.
    + left. reflexivity.
  - left. reflexivity.
  - right. apply IH. reflexivity.
Qed.

(** X15. The handler of [GET /status] always answers and never writes:
    when its two reads are accepted it reports the number of entries in the
    Mutation Log, the latest [last_synced_at] over all records (none when
    no record has one) and the outcome of the probe; when a read is
    rejected it answers 500. *)
Theorem get_status_reports :
  forall (E : Env) (this : SyncService) (w : World),
    exists response w',
      get_status this E w = (Ok response, w')
      /\ db w' = db w
      /\ net_log w' = net_log w
      /\ match db_fault E (tick w), db_fault E (S (tick w)) with
         | None, None =>
             exists online latest,
               fst (checkConnectivity this E (advance (advance w)))
                 = Ok online
               /\ response
                  = mkHttp 200
                      (body_status (List.length (sync_queue (db w)))
                         latest online)
               /\ (forall row t,
                      In row (tasks (db w)) ->
                      t_last_synced_at row = Some t ->
                      exists m, latest = Some m /\ (t <= m)%Z)
               /\ (forall m,
                      latest = Some m ->
                      exists row,
                        In row (tasks (db w))
                        /\ t_last_synced_at row = Some m)
         | _, _ =>
             response
             = mkHttp 500 (body_error "Failed to fetch sync status")
         end.
Proof.
  intros E this w. unfold get_status, try_catch, bind, db_query.
  destruct (db_fault E (tick w)) as [e |] eqn:H0.
  { eexists. eexists. split; [reflexivity |]. repeat split. }
  cbn [tick advance].
  destruct (db_fault E (S (tick w))) as [e |] eqn:H1.
  { eexists. eexists. split; [reflexivity |]. repeat split. }
  destruct (checkConnectivity_run this E (advance (advance w)))
    as (online & Hprobe).
  rewrite Hprobe. eexists. eexists. split; [reflexivity |].
  split; [reflexivity |]. split; [reflexivity |].
  exists online, (sql_max_last_synced_at (db w)).
  split; [reflexivity |]. split; [reflexivity |]. split.
  - intros row t Hrow Ht. apply sql_max_bounds.
    rewrite <- Ht. apply in_map, Hrow.
  - intros m Hm. apply sql_max_attained in Hm.
    apply in_map_iff in Hm as (row & Hrow & Hin). exists row. auto.
Qed.

(** *** Conflict resolution, again *)

(** X16. The record [resolveConflict] returns is one of the two it was
    given and carries the later of the two [updated_at] instants; the order
    of the arguments decides the winner only when the instants are
    equal. *)
Theorem resolveConflict_keeps_the_latest :
  forall localTask serverTask : Task,
    (resolveConflict localTask serverTask = localTask
     \/ resolveConflict localTask serverTask = serverTask)
    /\ t_updated_at (resolveConflict localTask serverTask)
       = Z.max (t_updated_at localTask) (t_updated_at serverTask)
    /\ (t_updated_at localTask <> t_updated_at serverTask ->
        resolveConflict localTask serverTask
        = resolveConflict serverTask localTask).
Proof.
  intros l s. unfold resolveConflict.
  destruct (Z.geb_spec (t_updated_at l) (t_updated_at s)) as [Hge | Hlt];
    destruct (Z.geb_spec (t_updated_at s) (t_updated_at l)) as [Hge' | Hlt'];
    repeat split; auto; try lia.
Qed.

(* ===================================================================== *)
(** ** The two read paths of the Record Service                           *)
(* ===================================================================== *)

Lemma find_unique_id :
  forall (l : list Task) row,
    NoDup (map t_id l) -> In row l ->
    find (fun r => String.eqb (t_id r) (t_id row)) l = Some row.
Proof.
  induction l as [| x l IH]; intros row Hnd Hin; [contradiction |].
  cbn in Hnd. inversion Hnd as [| ? ? Hnotin Hnd']; subst. cbn.
  destruct Hin as [Hx | Hin].
  - subst x. rewrite String.eqb_refl. reflexivity.
  - destruct (String.eqb (t_id x) (t_id row)) eqn:Heq.
    + apply String.eqb_eq in Heq. exfalso. apply Hnotin.
      rewrite Heq. apply in_map, Hin.
    + apply IH; assumption.
Qed.

(** X17. Where the ids of the stored records are unique, [getTask] and
    [getAllTasks] agree: [getTask] gives a record for an id exactly when
    [getAllTasks] lists a record with that id, and it is that record;
    neither read changes the store. *)
Theorem getTask_agrees_with_getAllTasks :
  forall (E : Env) (w : World) (id : string) (t : Task),
    no_db_faults E ->
    NoDup (map t_id (tasks (db w))) ->
    exists all,
      getAllTasks E w = (Ok all, advance w)
      /\ snd (getTask id E w) = advance w
      /\ (fst (getTask id E w) = Ok (Some t) <-> In t all /\ t_id t = id).
Proof.
  intros E w id t HE Hnd.
  unfold getAllTasks, bind. rewrite db_query_ok by exact HE.
  eexists. split; [reflexivity |].
  rewrite getTask_run, HE. split; [reflexivity |]. cbn. split.
  - intros H. inversion H as [Hlive].
    destruct (live_task_row id (db w) t Hlive)
      as (row & Hfind & Hid & Hdel & Heq).
    subst t. split; [| exact Hid].
    apply in_map. unfold sql_select_tasks_not_deleted.
    apply filter_In. rewrite Hdel. split; [| reflexivity].
    unfold sql_select_task_where_id in Hfind.
    apply find_some in Hfind. apply Hfind.
  - intros [Hin Hid]. apply in_map_iff in Hin as (row & Heq & Hrow).
    unfold sql_select_tasks_not_deleted in Hrow.
    apply filter_In in Hrow as [Hrow Hlive].
    apply negb_true_iff in Hlive.
    subst t. cbn in Hid. subst id.
    unfold live_task, sql_select_task_where_id.
    rewrite (find_unique_id _ row Hnd Hrow), Hlive. reflexivity.
Qed.

Lemma getTask_agrees_with_getAllTasks_witness :
  no_db_faults E_ok
  /\ NoDup (map t_id (tasks (db w_t1)))
  /\ exists all,
       getAllTasks E_ok w_t1 = (Ok all, advance w_t1)
       /\ (fst (getTask "t1" E_ok w_t1) = Ok (Some task_t1) <->
           In task_t1 all /\ t_id task_t1 = "t1").
Proof.
  assert (Hnd : NoDup (map t_id (tasks (db w_t1)))).
  { cbn. constructor; [intros [] | constructor]. }
  split; [intro n; reflexivity |]. split; [exact Hnd |].
  destruct (getTask_agrees_with_getAllTasks E_ok w_t1 "t1" task_t1
              (fun n => eq_refl) Hnd) as (all & Hall & _ & Hiff).
  exists all. split; assumption.
Defined.
